(** * Centrifuge node: control plane, publish pipeline, channel grammar
      and node registry

    A shallow embedding of the [Node] and [nodeRegistry] code of the
    [centrifuge] package, with the properties of its specification
    stated and proved against it.

    Layout: the Go [strings] functions the channel grammar relies on;
    the data model; the collaborators ([Hub], [Engine], codecs, NUID
    generator) as interfaces, and the NUID generator itself; the node
    methods in a state-and-panic monad; test doubles for the
    collaborators; the vocabulary of the
    properties and the test inputs; then the lemmas and theorems, and
    their runs on the test doubles. *)

From Stdlib Require Import ZArith NArith Ascii Lia Bool.
From stdpp Require Import base option list strings gmap fin_maps.

Open Scope Z_scope.

(** ** Go [strings] and [unicode/utf8]

    Go strings are byte sequences; [string] holds one byte per
    character.  [None] stands for the [-1] of [strings.Index]. *)
Module GoStrings.

Fixpoint len (s : string) : nat :=
  match s with
  | EmptyString => O
  | String _ s' => S (len s')
  end.

(** [s[:n]] and [s[n:]] for [n <= len s]. *)
Fixpoint slice_to (n : nat) (s : string) : string :=
  match n, s with
  | S n', String c s' => String c (slice_to n' s')
  | _, _ => EmptyString
  end.

Fixpoint slice_from (n : nat) (s : string) : string :=
  match n, s with
  | S n', String _ s' => slice_from n' s'
  | _, _ => s
  end.

Fixpoint HasPrefix (s prefix : string) {struct prefix} : bool :=
  match prefix, s with
  | EmptyString, _ => true
  | String a p', String b s' => if Ascii.eqb a b then HasPrefix s' p' else false
  | String _ _, EmptyString => false
  end.

Definition TrimPrefix (s prefix : string) : string :=
  if HasPrefix s prefix then slice_from (len prefix) s else s.

Fixpoint Index (s substr : string) : option nat :=
  if HasPrefix s substr then Some O
  else match s with
       | EmptyString => None
       | String _ s' => S <$> Index s' substr
       end.

Definition Contains (s substr : string) : bool :=
  match Index s substr with Some _ => true | None => false end.

(** [utf8.DecodeRuneInString], of which only the width is used: the
    first-byte table [first] and [acceptRanges] give the width and the
    accepted range of the second byte. *)
Definition utf8_first (b : N) : option (nat * N * N) :=
  (if b <? 194 then None
   else if b <=? 223 then Some (2%nat, 128, 191)
   else if b =? 224 then Some (3%nat, 160, 191)
   else if b <=? 236 then Some (3%nat, 128, 191)
   else if b =? 237 then Some (3%nat, 128, 159)
   else if b <=? 239 then Some (3%nat, 128, 191)
   else if b =? 240 then Some (4%nat, 144, 191)
   else if b <=? 243 then Some (4%nat, 128, 191)
   else if b =? 244 then Some (4%nat, 128, 143)
   else None)%N.

Definition continuation (b : N) : bool := ((128 <=? b) && (b <=? 191))%N.

Definition byte_at (s : string) (i : nat) : option N :=
  match slice_from i s with
  | String c _ => if decide (i < len s)%nat then Some (N_of_ascii c) else None
  | EmptyString => None
  end.

Definition rune_width (s : string) : nat :=
  match s with
  | EmptyString => 0%nat
  | String c0 _ =>
      match utf8_first (N_of_ascii c0) with
      | None => 1%nat
      | Some (sz, lo, hi) =>
          if decide (len s < sz)%nat then 1%nat
          else match byte_at s 1 with
               | None => 1%nat
               | Some s1 =>
                   if negb ((lo <=? s1) && (s1 <=? hi))%N then 1%nat
                   else if decide (sz <= 2)%nat then 2%nat
                   else match byte_at s 2 with
                        | None => 1%nat
                        | Some s2 =>
                            if negb (continuation s2) then 1%nat
                            else if decide (sz <= 3)%nat then 3%nat
                            else match byte_at s 3 with
                                 | None => 1%nat
                                 | Some s3 =>
                                     if negb (continuation s3) then 1%nat else 4%nat
                                 end
                        end
               end
      end
  end.

(** [utf8.RuneCountInString]: the loop advances by one rune per round;
    a string of [k] bytes needs at most [k] rounds. *)
Fixpoint RuneCount_loop (fuel : nat) (s : string) : nat :=
  match fuel with
  | O => O
  | S fuel' =>
      match s with
      | EmptyString => O
      | String _ _ => S (RuneCount_loop fuel' (slice_from (rune_width s) s))
      end
  end.

Definition RuneCountInString (s : string) : nat := RuneCount_loop (len s) s.

(** [strings.Count] for a non-empty [substr]: the number of
    non-overlapping matches found from the left. *)
Fixpoint Count_loop (fuel : nat) (s substr : string) : nat :=
  match fuel with
  | O => O
  | S fuel' =>
      match Index s substr with
      | None => O
      | Some i => S (Count_loop fuel' (slice_from (i + len substr) s) substr)
      end
  end.

Definition Count (s substr : string) : nat :=
  if decide (substr = "") then S (RuneCountInString s)
  else Count_loop (len s) s substr.

(** [strings.explode]: [n - 1] leading runes, then the rest. *)
Fixpoint explode_loop (k : nat) (s : string) : list string :=
  match k with
  | O => [s]
  | S k' =>
      let size := rune_width s in
      slice_to size s :: explode_loop k' (slice_from size s)
  end.

Definition explode (s : string) (n : Z) : list string :=
  let l := Z.of_nat (RuneCountInString s) in
  let n := if (n <? 0) || (n >? l) then l else n in
  if n >? 0 then explode_loop (Z.to_nat (n - 1)) s else [].

(** [strings.genSplit]: the loop [for i < n] with its [break] when no
    further separator is found; the result is [a[:i+1]]. *)
Fixpoint genSplit_loop (k : nat) (s sep : string) (sepSave : nat) : list string :=
  match k with
  | O => [s]
  | S k' =>
      match Index s sep with
      | None => [s]
      | Some m =>
          slice_to (m + sepSave) s :: genSplit_loop k' (slice_from (m + len sep) s) sep sepSave
      end
  end.

Definition genSplit (s sep : string) (sepSave : nat) (n : Z) : list string :=
  if n =? 0 then []
  else if decide (sep = "") then explode s n
  else
    let n := if n <? 0 then Z.of_nat (Count s sep) + 1 else n in
    let n := if n >? Z.of_nat (len s) + 1 then Z.of_nat (len s) + 1 else n in
    genSplit_loop (Z.to_nat (n - 1)) s sep sepSave.

Definition Split (s sep : string) : list string := genSplit s sep 0 (-1).
Definition SplitN (s sep : string) (n : Z) : list string := genSplit s sep 0 n.

End GoStrings.

Import GoStrings.

(** ** Protocol and configuration data *)

Definition bytes := list Byte.byte.

(** Package [controlproto]: the commands exchanged between nodes.
    [MethodTypeUnknown code] stands for any wire value other than the
    three declared constants. *)
Module controlproto.

Inductive MethodType :=
| MethodTypeNode
| MethodTypeUnsubscribe
| MethodTypeDisconnect
| MethodTypeUnknown (code : Z).

Record Command := mkCommand {
  Command_UID : string;
  Command_Method : MethodType;
  Command_Params : bytes
}.

Record Node := mkNode {
  Node_UID : string;
  Node_Name : string;
  Node_Version : string;
  Node_NumClients : Z;
  Node_NumUsers : Z;
  Node_NumChannels : Z;
  Node_Uptime : Z
}.

Record Unsubscribe := mkUnsubscribe {
  Unsubscribe_User : string;
  Unsubscribe_Channel : string
}.

(** The source builds it from the user alone. *)
Record Disconnect := mkDisconnect {
  Disconnect_User : string
}.

End controlproto.

(** Package [proto]: client messages carried by the engine. *)
Module proto.

Inductive MessageType :=
| MessageTypePublication
| MessageTypeJoin
| MessageTypeLeave
| MessageTypeUnknown (code : Z).

Record ClientInfo := mkClientInfo {
  ClientInfo_User : string;
  ClientInfo_Client : string;
  ClientInfo_ConnInfo : bytes;
  ClientInfo_ChanInfo : bytes
}.

Record Publication := mkPublication {
  Publication_UID : string;
  Publication_Data : bytes;
  Publication_Info : option ClientInfo
}.

Record Join := mkJoin { Join_Info : ClientInfo }.
Record Leave := mkLeave { Leave_Info : ClientInfo }.

Record Message := mkMessage {
  Message_Type : MessageType;
  Message_Channel : string;
  Message_Data : bytes
}.

End proto.

(** Go [error] values met in the node: the three API errors, the error
    made by [fmt.Errorf] in [handleControl], and errors returned by a
    collaborator, of which only the text is known. *)
Inductive error :=
| ErrBadRequest
| ErrNamespaceNotFound
| ErrInternalServerError
| ErrControlMethodNotFound (method : controlproto.MethodType)
| ErrCollaborator (text : string).

Inductive LogLevel := LogLevelNone | LogLevelDebug | LogLevelInfo | LogLevelError.

(** A value of the [fields] map of a log entry. *)
Inductive LogValue :=
| LogErrorText (e : error)
| LogMethod (m : controlproto.MethodType).

Record LogEntry := newLogEntry {
  LogEntry_Level : LogLevel;
  LogEntry_Message : string;
  LogEntry_Fields : list (string * LogValue)
}.

(** [time.Duration]: signed 64-bit nanoseconds. *)
Definition Duration := Z.
Definition Second : Duration := 1000000000.

(** [int64(d.Seconds())].  [Seconds] is [float64(d / Second) +
    float64(d % Second) / 1e9] and the conversion truncates towards
    zero; for every duration below 2^24 s the floating-point sum cannot
    reach the next integer, so the result is the truncated quotient. *)
Definition whole_seconds (d : Duration) : Z := Z.quot d Second.

(** Signed 64-bit wrap-around of Go's [int64] arithmetic. *)
Definition wrap64 (z : Z) : Z := (z + 2 ^ 63) mod 2 ^ 64 - 2 ^ 63.
Definition sub64 (a b : Z) : Z := wrap64 (a - b).

(** [Config]: the fields the node reads.  The namespace table is kept
    abstract as [Namespaces]; it is read through [channelOpts] only. *)
Record Config {Namespaces : Type} := mkConfig {
  Name : string;
  Version : string;
  ChannelPrivatePrefix : string;
  ChannelNamespaceBoundary : string;
  ChannelUserBoundary : string;
  ChannelUserSeparator : string;
  ChannelClientBoundary : string;
  ClientPresenceExpireInterval : Duration;
  ConfigNamespaces : Namespaces
}.
Arguments Config : clear implicits.
Arguments mkConfig {Namespaces}.

(** ** Collaborators

    Code of the package that lives outside the node file, and the
    engine interface, enter as interfaces over their own state. *)

(** [Config.channelOpts]: options of a namespace, [None] for [ok = false]. *)
Class ConfigAPI (Namespaces ChannelOptions : Type) := {
  channelOpts : Config Namespaces → string → option ChannelOptions
}.

(** The [Hub] methods the node calls; each returns its [error] ([None]
    for [nil]) and the hub it leaves. *)
Class HubAPI (Hub : Type) := {
  hub_unsubscribe : string → string → Hub → option error * Hub;
  hub_disconnect : string → bool → Hub → option error * Hub;
  hub_shutdown : Hub → option error * Hub;
  hub_NumSubscribers : string → Hub → Z;
  hub_broadcastPublication : string → proto.Publication → Hub → option error * Hub;
  hub_broadcastJoin : string → proto.Join → Hub → option error * Hub;
  hub_broadcastLeave : string → proto.Leave → Hub → option error * Hub
}.

(** The [Engine] interface.  A [<-chan error] result is represented by
    the one value it delivers. *)
Class EngineAPI (ChannelOptions Engine : Type) := {
  engine_publish :
    string → proto.Publication → ChannelOptions → Engine → option error * Engine;
  engine_publishControl : controlproto.Command → Engine → option error * Engine
}.

(** [controlproto.Encoder] and [controlproto.Decoder]. *)
Class ControlCodec := {
  EncodeNode : controlproto.Node → bytes * option error;
  EncodeUnsubscribe : controlproto.Unsubscribe → bytes * option error;
  EncodeDisconnect : controlproto.Disconnect → bytes * option error;
  DecodeNode : bytes → controlproto.Node + error;
  DecodeUnsubscribe : bytes → controlproto.Unsubscribe + error;
  DecodeDisconnect : bytes → controlproto.Disconnect + error
}.

(** [proto.MessageDecoder]. *)
Class MessageCodec := {
  DecodePublication : bytes → proto.Publication + error;
  DecodeJoin : bytes → proto.Join + error;
  DecodeLeave : bytes → proto.Leave + error
}.

(** The global NUID generator behind [nuid.Next()]. *)
Class NuidAPI (Nuid : Type) := {
  nuid_Next : Nuid → string * Nuid
}.

(** *** The NUID generator

    [publish] takes its ids from [nuid.Next()] of the imported package
    github.com/nats-io/nuid, which is not part of the repository.  The
    specification describes the ids as "NUID-style, 22-char, base62";
    the model is that generator: an id is a 12-character prefix
    followed by the sequence number in 10 digits of base 62.  Each call
    adds the increment to the sequence number; when that reaches
    [maxSeq = 62^10] the prefix, the sequence number and the increment
    are drawn anew.  The random source is a stream kept in the state:
    [random k] is the [k]-th draw.  The digit indices are in range for
    the non-negative sequence numbers the generator keeps. *)
Module nuid.

Definition digits : string :=
  "0123456789ABCDEFGHIJKLMNOPQRSTUVWXYZabcdefghijklmnopqrstuvwxyz".
Definition base : Z := 62.
Definition preLen : nat := 12.
Definition seqLen : nat := 10.
Definition maxSeq : Z := 839299365868340224.
Definition minInc : Z := 33.
Definition maxInc : Z := 333.

Record NUID := mk {
  pre : string;
  seq : Z;
  inc : Z;
  random : nat → string * Z * Z;
  drawn : nat
}.

(** [RandomizePrefix] and [resetSequential]. *)
Definition reseed (n : NUID) : NUID :=
  let '(p, s, i) := random n (drawn n) in
  mk p s i (random n) (S (drawn n)).

(** [digits[l%base]]. *)
Definition digit (d : Z) : ascii :=
  nth (Z.to_nat d) (String.list_ascii_of_string digits) "0"%char.

(** The loop that fills the last [k] bytes from the right:
    [for i, l := len(b), seq; i > preLen; l /= base]. *)
Fixpoint render (k : nat) (l : Z) : string :=
  match k with
  | O => ""
  | S k' => render k' (Z.quot l base) +:+ String (digit (Z.rem l base)) ""
  end.

Definition Next (n : NUID) : string * NUID :=
  let n1 := mk (pre n) (wrap64 (seq n + inc n)) (inc n) (random n) (drawn n) in
  let n2 := if maxSeq <=? seq n1 then reseed n1 else n1 in
  (pre n2 +:+ render seqLen (seq n2), n2).

End nuid.

#[global] Instance nuid_generator : NuidAPI nuid.NUID := {
  nuid_Next := nuid.Next
}.

(** ** The node registry

    [time.Now().Unix()] is passed in as [now]; one call sees one clock
    value. *)
Module nodeRegistry.

Record t := mk {
  currentUID : string;
  nodes : gmap string controlproto.Node;
  updates : gmap string Z
}.

Definition newNodeRegistry (currentUID : string) : t := mk currentUID ∅ ∅.

Definition zeroNode : controlproto.Node := controlproto.mkNode "" "" "" 0 0 0 0.

Definition get (r : t) (uid : string) : controlproto.Node :=
  default zeroNode (nodes r !! uid).

Definition add (now : Z) (info : controlproto.Node) (r : t) : t :=
  mk (currentUID r)
     (<[controlproto.Node_UID info := info]> (nodes r))
     (<[controlproto.Node_UID info := now]> (updates r)).

(** The body of the [for uid := range r.nodes] loop of [clean]. *)
Definition clean_body (now : Z) (delay : Duration) (r : t) (uid : string) : t :=
  if decide (uid = currentUID r) then r
  else
    match updates r !! uid with
    | None => mk (currentUID r) (delete uid (nodes r)) (updates r)
    | Some updated =>
        if sub64 now updated >? whole_seconds delay
        then mk (currentUID r) (delete uid (nodes r)) (delete uid (updates r))
        else r
    end.

(** The loop deletes no key but the one it is visiting, so it visits
    every key that was in the map on entry, in an unspecified order. *)
Definition clean (now : Z) (delay : Duration) (r : t) : t :=
  foldl (clean_body now delay) r (fst <$> map_to_list (nodes r)).

Definition list (r : t) := snd <$> map_to_list (nodes r).

End nodeRegistry.

(** [prometheus.CounterVec]: per label, the number of [Inc] calls. *)
Abbreviation CounterVec := (gmap string nat).
Definition counter (c : CounterVec) (label : string) : nat := default 0%nat (c !! label).
Definition Inc (label : string) (c : CounterVec) : CounterVec :=
  <[label := S (counter c label)]> c.

(** ** The node *)
Section NodeModel.

Context {Namespaces ChannelOptions Hub Engine Nuid : Type}.
Context `{!ConfigAPI Namespaces ChannelOptions} `{!HubAPI Hub}
        `{!EngineAPI ChannelOptions Engine} `{!ControlCodec} `{!MessageCodec}
        `{!NuidAPI Nuid}.

(** Calls that leave the node, in the order they are made. *)
Inductive Call :=
| CallHubUnsubscribe (user ch : string)
| CallHubDisconnect (user : string) (reconnect : bool)
| CallHubShutdown
| CallHubBroadcastPublication (ch : string) (pub : proto.Publication)
| CallHubBroadcastJoin (ch : string) (join : proto.Join)
| CallHubBroadcastLeave (ch : string) (leave : proto.Leave)
| CallEnginePublish (ch : string) (pub : proto.Publication) (opts : ChannelOptions)
| CallEnginePublishControl (cmd : controlproto.Command)
| CallCloseShutdownCh.

(** The [Node] struct once [Run] has attached the engine.  [shutdownCh]
    holds whether the channel has been closed.  The codecs are the
    interfaces above; the logger is represented by [logged] below. *)
Record Node := mkNode {
  uid : string;
  startedAt : Z;
  config : Config Namespaces;
  hub : Hub;
  engine : Engine;
  nodes : nodeRegistry.t;
  shutdown : bool;
  shutdownCh : bool
}.

(** The node together with the package-level metrics, the entries
    handed to [n.logger.log], the wall clock in Unix seconds, the NUID
    generator and the record of outgoing calls. *)
Record World := mkWorld {
  node : Node;
  messagesSentCount : CounterVec;
  messagesReceivedCount : CounterVec;
  actionCount : CounterVec;
  logged : list LogEntry;
  clock : Z;
  nuid : Nuid;
  calls : list Call
}.

Definition set_hub (h : Hub) (n : Node) : Node :=
  mkNode (uid n) (startedAt n) (config n) h (engine n) (nodes n) (shutdown n) (shutdownCh n).
Definition set_engine (e : Engine) (n : Node) : Node :=
  mkNode (uid n) (startedAt n) (config n) (hub n) e (nodes n) (shutdown n) (shutdownCh n).
Definition set_nodes (r : nodeRegistry.t) (n : Node) : Node :=
  mkNode (uid n) (startedAt n) (config n) (hub n) (engine n) r (shutdown n) (shutdownCh n).
Definition set_shutdown (b : bool) (n : Node) : Node :=
  mkNode (uid n) (startedAt n) (config n) (hub n) (engine n) (nodes n) b (shutdownCh n).
Definition set_shutdownCh (b : bool) (n : Node) : Node :=
  mkNode (uid n) (startedAt n) (config n) (hub n) (engine n) (nodes n) (shutdown n) b.

Definition set_node (n : Node) (w : World) : World :=
  mkWorld n (messagesSentCount w) (messagesReceivedCount w) (actionCount w)
          (logged w) (clock w) (nuid w) (calls w).
Definition set_messagesSentCount (c : CounterVec) (w : World) : World :=
  mkWorld (node w) c (messagesReceivedCount w) (actionCount w)
          (logged w) (clock w) (nuid w) (calls w).
Definition set_messagesReceivedCount (c : CounterVec) (w : World) : World :=
  mkWorld (node w) (messagesSentCount w) c (actionCount w)
          (logged w) (clock w) (nuid w) (calls w).
Definition set_logged (l : list LogEntry) (w : World) : World :=
  mkWorld (node w) (messagesSentCount w) (messagesReceivedCount w) (actionCount w)
          l (clock w) (nuid w) (calls w).
Definition set_nuid (g : Nuid) (w : World) : World :=
  mkWorld (node w) (messagesSentCount w) (messagesReceivedCount w) (actionCount w)
          (logged w) (clock w) g (calls w).
Definition set_calls (cs : list Call) (w : World) : World :=
  mkWorld (node w) (messagesSentCount w) (messagesReceivedCount w) (actionCount w)
          (logged w) (clock w) (nuid w) cs.

(** *** State-and-panic monad *)
Inductive Res (A : Type) :=
| Done (a : A) (w : World)
| Panic (reason : string).
Arguments Done {A}.
Arguments Panic {A}.

Definition M (A : Type) : Type := World → Res A.

#[global] Instance M_ret : MRet M := λ A a w, Done a w.
#[global] Instance M_bind : MBind M :=
  λ A B k m w, match m w with
               | Done a w' => k a w'
               | Panic r => Panic r
               end.

Definition panic {A} (reason : string) : M A := λ _, Panic reason.
Definition get : M World := λ w, Done w w.
Definition modify (f : World → World) : M unit := λ w, Done tt (f w).

Definition modify_node (f : Node → Node) : M unit :=
  modify (λ w, set_node (f (node w)) w).

Definition record (c : Call) : M unit :=
  modify (λ w, set_calls (calls w ++ [c]) w).

(** A hub method: the call is recorded and the hub replaced. *)
Definition on_hub {A} (c : Call) (f : Hub → A * Hub) : M A :=
  record c ;;
  w ← get ;
  let '(a, h) := f (hub (node w)) in
  modify_node (set_hub h) ;;
  mret a.

Definition on_engine {A} (c : Call) (f : Engine → A * Engine) : M A :=
  record c ;;
  w ← get ;
  let '(a, e) := f (engine (node w)) in
  modify_node (set_engine e) ;;
  mret a.

Definition log (e : LogEntry) : M unit :=
  modify (λ w, set_logged (logged w ++ [e]) w).

Definition inc_messagesReceivedCount (label : string) : M unit :=
  modify (λ w, set_messagesReceivedCount (Inc label (messagesReceivedCount w)) w).
Definition inc_messagesSentCount (label : string) : M unit :=
  modify (λ w, set_messagesSentCount (Inc label (messagesSentCount w)) w).

(** [l[i]] of a Go slice: out of range panics. *)
Definition at_index {A} (l : list A) (i : Z) : option A :=
  if i <? 0 then None else l !! Z.to_nat i.

Definition or_panic {A} (o : option A) : M A :=
  match o with
  | Some a => mret a
  | None => panic "index out of range"
  end.

(** *** Channel grammar

    The methods read [n.config] only, so they are functions of the
    configuration; [None] is the index-out-of-range panic. *)
Definition namespaceName (c : Config Namespaces) (ch : string) : option string :=
  let cTrim := TrimPrefix ch (ChannelPrivatePrefix c) in
  if Contains cTrim (ChannelNamespaceBoundary c) then
    let parts := SplitN cTrim (ChannelNamespaceBoundary c) 2 in
    at_index parts 0
  else Some "".

Definition privateChannel (c : Config Namespaces) (ch : string) : bool :=
  HasPrefix ch (ChannelPrivatePrefix c).

Fixpoint userAllowed_range (user : string) (allowedUsers : list string) : bool :=
  match allowedUsers with
  | [] => false
  | allowedUser :: rest =>
      if decide (user = allowedUser) then true else userAllowed_range user rest
  end.

Definition userAllowed (c : Config Namespaces) (ch user : string) : option bool :=
  if negb (Contains ch (ChannelUserBoundary c)) then Some true
  else
    let parts := Split ch (ChannelUserBoundary c) in
    match at_index parts (Z.of_nat (length parts) - 1) with
    | None => None
    | Some last_part =>
        let allowedUsers := Split last_part (ChannelUserSeparator c) in
        Some (userAllowed_range user allowedUsers)
    end.

Definition clientAllowed (c : Config Namespaces) (ch client : string) : option bool :=
  if negb (Contains ch (ChannelClientBoundary c)) then Some true
  else
    let parts := Split ch (ChannelClientBoundary c) in
    match at_index parts (Z.of_nat (length parts) - 1) with
    | None => None
    | Some allowedClient => Some (bool_decide (client = allowedClient))
    end.

Definition ChannelOpts (ch : string) : M (option ChannelOptions) :=
  w ← get ;
  ns ← or_panic (namespaceName (config (node w)) ch) ;
  mret (channelOpts (config (node w)) ns).

(** *** Control plane *)
Definition nodeCmd (info : controlproto.Node) : M (option error) :=
  modify (λ w, set_node (set_nodes (nodeRegistry.add (clock w) info (nodes (node w)))
                                   (node w)) w) ;;
  mret None.

Definition handleControl (cmd : controlproto.Command) : M (option error) :=
  inc_messagesReceivedCount "control" ;;
  w ← get ;
  if decide (controlproto.Command_UID cmd = uid (node w)) then mret None
  else
    let method := controlproto.Command_Method cmd in
    let params := controlproto.Command_Params cmd in
    match method with
    | controlproto.MethodTypeNode =>
        match DecodeNode params with
        | inr err =>
            log (newLogEntry LogLevelError "error decoding node control params"
                             [("error", LogErrorText err)]) ;;
            mret (Some err)
        | inl cmd => nodeCmd cmd
        end
    | controlproto.MethodTypeUnsubscribe =>
        match DecodeUnsubscribe params with
        | inr err =>
            log (newLogEntry LogLevelError "error decoding unsubscribe control params"
                             [("error", LogErrorText err)]) ;;
            mret (Some err)
        | inl cmd =>
            let user := controlproto.Unsubscribe_User cmd in
            let ch := controlproto.Unsubscribe_Channel cmd in
            on_hub (CallHubUnsubscribe user ch) (hub_unsubscribe user ch)
        end
    | controlproto.MethodTypeDisconnect =>
        match DecodeDisconnect params with
        | inr err =>
            log (newLogEntry LogLevelError "error decoding disconnect control params"
                             [("error", LogErrorText err)]) ;;
            mret (Some err)
        | inl cmd =>
            let user := controlproto.Disconnect_User cmd in
            on_hub (CallHubDisconnect user false) (hub_disconnect user false)
        end
    | controlproto.MethodTypeUnknown _ =>
        log (newLogEntry LogLevelError "unknown control message method"
                         [("method", LogMethod method)]) ;;
        mret (Some (ErrControlMethodNotFound method))
    end.

Definition publishControl (msg : controlproto.Command) : M (option error) :=
  inc_messagesSentCount "control" ;;
  on_engine (CallEnginePublishControl msg) (engine_publishControl msg).

Definition pubUnsubscribe (user ch : string) : M (option error) :=
  let unsubscribe := controlproto.mkUnsubscribe user ch in
  let '(params, _) := EncodeUnsubscribe unsubscribe in
  w ← get ;
  let cmd := controlproto.mkCommand (uid (node w)) controlproto.MethodTypeUnsubscribe params in
  publishControl cmd.

Definition pubDisconnect (user : string) (reconnect : bool) : M (option error) :=
  let disconnect := controlproto.mkDisconnect user in
  let '(params, _) := EncodeDisconnect disconnect in
  w ← get ;
  let cmd := controlproto.mkCommand (uid (node w)) controlproto.MethodTypeDisconnect params in
  publishControl cmd.

(** *** Public API *)
Definition Unsubscribe (user ch : string) : M (option error) :=
  if decide (user = "") then mret (Some ErrBadRequest)
  else
    ok ← (if decide (ch ≠ "")
          then opts ← ChannelOpts ch ; mret (bool_decide (is_Some opts))
          else mret true) ;
    if negb ok then mret (Some ErrNamespaceNotFound)
    else
      err ← on_hub (CallHubUnsubscribe user ch) (hub_unsubscribe user ch) ;
      match err with
      | Some _ => mret (Some ErrInternalServerError)
      | None =>
          err ← pubUnsubscribe user ch ;
          match err with
          | Some _ => mret (Some ErrInternalServerError)
          | None => mret None
          end
      end.

Definition Disconnect (user : string) (reconnect : bool) : M (option error) :=
  if decide (user = "") then mret (Some ErrBadRequest)
  else
    err ← on_hub (CallHubDisconnect user reconnect) (hub_disconnect user reconnect) ;
    match err with
    | Some _ => mret (Some ErrInternalServerError)
    | None =>
        err ← pubDisconnect user reconnect ;
        match err with
        | Some _ => mret (Some ErrInternalServerError)
        | None => mret None
        end
    end.

(** *** Publish pipeline

    [pub] is a pointer in the source: [publish] returns, next to the
    value of its result channel, the publication as the caller finds it
    afterwards.  [opts = None] is the [nil] pointer. *)
Definition makeErrChan (err : error) : option error := Some err.

Definition set_Publication_UID (id : string) (pub : proto.Publication) : proto.Publication :=
  proto.mkPublication id (proto.Publication_Data pub) (proto.Publication_Info pub).

Definition nuid_next : M string :=
  w ← get ;
  let '(id, g) := nuid_Next (nuid w) in
  modify (set_nuid g) ;;
  mret id.

Definition publish (ch : string) (pub : proto.Publication) (opts : option ChannelOptions)
  : M (proto.Publication * option error) :=
  resolved ← match opts with
             | None => ChannelOpts ch
             | Some o => mret (Some o)
             end ;
  match resolved with
  | None => mret (pub, makeErrChan ErrNamespaceNotFound)
  | Some opts =>
      inc_messagesSentCount "publication" ;;
      pub ← (if decide (proto.Publication_UID pub = "")
             then id ← nuid_next ; mret (set_Publication_UID id pub)
             else mret pub) ;
      result ← on_engine (CallEnginePublish ch pub opts) (engine_publish ch pub opts) ;
      mret (pub, result)
  end.

Definition Publish (ch : string) (pub : proto.Publication)
  : M (proto.Publication * option error) :=
  publish ch pub None.

(** *** Inbound client messages *)
Definition handlePublication (ch : string) (publication : proto.Publication)
  : M (option error) :=
  inc_messagesReceivedCount "publication" ;;
  w ← get ;
  let numSubscribers := hub_NumSubscribers ch (hub (node w)) in
  let hasCurrentSubscribers := numSubscribers >? 0 in
  if negb hasCurrentSubscribers then mret None
  else on_hub (CallHubBroadcastPublication ch publication)
              (hub_broadcastPublication ch publication).

Definition handleJoin (ch : string) (join : proto.Join) : M (option error) :=
  inc_messagesReceivedCount "join" ;;
  w ← get ;
  let hasCurrentSubscribers := hub_NumSubscribers ch (hub (node w)) >? 0 in
  if negb hasCurrentSubscribers then mret None
  else on_hub (CallHubBroadcastJoin ch join) (hub_broadcastJoin ch join).

Definition handleLeave (ch : string) (leave : proto.Leave) : M (option error) :=
  inc_messagesReceivedCount "leave" ;;
  w ← get ;
  let hasCurrentSubscribers := hub_NumSubscribers ch (hub (node w)) >? 0 in
  if negb hasCurrentSubscribers then mret None
  else on_hub (CallHubBroadcastLeave ch leave) (hub_broadcastLeave ch leave).

Definition handleClientMessage (message : proto.Message) : M (option error) :=
  match proto.Message_Type message with
  | proto.MessageTypePublication =>
      match DecodePublication (proto.Message_Data message) with
      | inr err => mret (Some err)
      | inl publication =>
          handlePublication (proto.Message_Channel message) publication ;;
          mret None
      end
  | proto.MessageTypeJoin =>
      match DecodeJoin (proto.Message_Data message) with
      | inr err => mret (Some err)
      | inl join =>
          handleJoin (proto.Message_Channel message) join ;;
          mret None
      end
  | proto.MessageTypeLeave =>
      match DecodeLeave (proto.Message_Data message) with
      | inr err => mret (Some err)
      | inl leave =>
          handleLeave (proto.Message_Channel message) leave ;;
          mret None
      end
  | proto.MessageTypeUnknown _ => mret None
  end.

(** *** Lifecycle *)

(** [close(n.shutdownCh)]: closing a closed channel panics. *)
Definition close_shutdownCh : M unit :=
  w ← get ;
  if shutdownCh (node w) then panic "close of closed channel"
  else record CallCloseShutdownCh ;; modify_node (set_shutdownCh true).

Definition Shutdown : M (option error) :=
  w ← get ;
  if shutdown (node w) then mret None
  else
    modify_node (set_shutdown true) ;;
    close_shutdownCh ;;
    on_hub CallHubShutdown hub_shutdown.

End NodeModel.

Arguments Done {Namespaces ChannelOptions Hub Engine Nuid A} a w.
Arguments Panic {Namespaces ChannelOptions Hub Engine Nuid A} reason.

(** ** The rest of the node

    The other collaborator methods the node file calls, and the node
    methods built on them.  Their calls are not part of [Call]: they
    act on the hub and the engine through [with_hub] and
    [with_engine]. *)

(** [apiproto.NodeResult] and [NodeInfo], as [Info] fills them. *)
Record NodeResult := mkNodeResult {
  NodeResult_UID : string;
  NodeResult_Name : string;
  NodeResult_NumClients : Z;
  NodeResult_NumUsers : Z;
  NodeResult_NumChannels : Z;
  NodeResult_Uptime : Z
}.

Record NodeInfo := mkNodeInfo {
  NodeInfo_Engine : string;
  NodeInfo_Nodes : list NodeResult
}.

(** Conversion of a Go integer to [uint32]. *)
Definition uint32 (z : Z) : Z := z mod 2 ^ 32.

(** [Config.Validate]. *)
Class ConfigValidateAPI (Namespaces : Type) := {
  Validate : Config Namespaces → option error
}.

(** The [Hub] methods on client handles, and its counters. *)
Class HubClientAPI (Hub Client : Type) := {
  hub_add : Client → Hub → option error * Hub;
  hub_remove : Client → Hub → option error * Hub;
  hub_addSub : string → Client → Hub → (bool * option error) * Hub;
  hub_removeSub : string → Client → Hub → (bool * option error) * Hub;
  hub_NumClients : Hub → Z;
  hub_NumUsers : Hub → Z;
  hub_NumChannels : Hub → Z
}.

(** The remaining methods of the [Engine] interface.  [history] takes
    the [Limit] of its filter. *)
Class EngineMoreAPI (ChannelOptions Engine : Type) := {
  engine_run : Engine → option error * Engine;
  engine_name : Engine → string;
  engine_publishJoin :
    string → proto.Join → ChannelOptions → Engine → option error * Engine;
  engine_publishLeave :
    string → proto.Leave → ChannelOptions → Engine → option error * Engine;
  engine_subscribe : string → Engine → option error * Engine;
  engine_unsubscribe : string → Engine → option error * Engine;
  engine_channels : Engine → (list string * option error) * Engine;
  engine_history :
    string → Z → Engine → (list proto.Publication * option error) * Engine;
  engine_removeHistory : string → Engine → option error * Engine;
  engine_addPresence :
    string → string → proto.ClientInfo → Duration → Engine → option error * Engine;
  engine_removePresence : string → string → Engine → option error * Engine;
  engine_presence :
    string → Engine → (gmap string proto.ClientInfo * option error) * Engine
}.

Section NodeModelMore.

Context {Namespaces ChannelOptions Hub Engine Nuid Client : Type}.
Context `{!ConfigAPI Namespaces ChannelOptions} `{!ConfigValidateAPI Namespaces}
        `{!HubAPI Hub} `{!HubClientAPI Hub Client}
        `{!EngineAPI ChannelOptions Engine} `{!EngineMoreAPI ChannelOptions Engine}
        `{!ControlCodec} `{!MessageCodec} `{!NuidAPI Nuid}.

Abbreviation World := (@World Namespaces ChannelOptions Hub Engine Nuid).
Abbreviation M := (@M Namespaces ChannelOptions Hub Engine Nuid).

Definition set_config (c : Config Namespaces) (n : @Node Namespaces Hub Engine)
  : @Node Namespaces Hub Engine :=
  mkNode (uid n) (startedAt n) c (hub n) (engine n) (nodes n) (shutdown n) (shutdownCh n).

Definition set_actionCount (c : CounterVec) (w : World) : World :=
  mkWorld (node w) (messagesSentCount w) (messagesReceivedCount w) c
          (logged w) (clock w) (nuid w) (calls w).

Definition inc_actionCount (label : string) : M unit :=
  modify (λ w, set_actionCount (Inc label (actionCount w)) w).

Definition with_hub {A} (f : Hub → A * Hub) : M A :=
  w ← get ;
  let '(a, h) := f (hub (node w)) in
  modify_node (set_hub h) ;;
  mret a.

Definition with_engine {A} (f : Engine → A * Engine) : M A :=
  w ← get ;
  let '(a, e) := f (engine (node w)) in
  modify_node (set_engine e) ;;
  mret a.

(** *** Configuration *)
Definition Reload (c : Config Namespaces) : M (option error) :=
  match Validate c with
  | Some err => mret (Some err)
  | None => modify_node (set_config c) ;; mret None
  end.

(** *** Announcing the node *)
Definition pubNode : M (option error) :=
  w ← get ;
  let n := node w in
  let info :=
    controlproto.mkNode (uid n) (Name (config n)) (Version (config n))
      (uint32 (hub_NumClients (hub n)))
      (uint32 (hub_NumUsers (hub n)))
      (uint32 (hub_NumChannels (hub n)))
      (uint32 (sub64 (clock w) (startedAt n))) in
  let '(params, _) := EncodeNode info in
  let cmd := controlproto.mkCommand (uid n) controlproto.MethodTypeNode params in
  err ← nodeCmd info ;
  match err with
  | Some e =>
      log (newLogEntry LogLevelError "error handling node command"
                       [("error", LogErrorText e)])
  | None => mret tt
  end ;;
  publishControl cmd.

(** [Run] up to the point where it starts the background tickers
    ([sendNodePing], [cleanNodeInfo], [updateMetrics]), which are not
    part of the model. *)
Definition Run (e : Engine) : M (option error) :=
  modify_node (set_engine e) ;;
  err ← with_engine engine_run ;
  match err with
  | Some err => mret (Some err)
  | None =>
      err ← pubNode ;
      match err with
      | Some e =>
          log (newLogEntry LogLevelError "error publishing node control command"
                           [("error", LogErrorText e)])
      | None => mret tt
      end ;;
      mret None
  end.

(** One round of [cleanNodeInfo], with the [nodeInfoMaxDelay] of the
    package given. *)
Definition cleanNodeInfo_round (nodeInfoMaxDelay : Duration) : M unit :=
  modify (λ w, set_node (set_nodes (nodeRegistry.clean (clock w) nodeInfoMaxDelay
                                      (nodes (node w))) (node w)) w).

Definition Info : M (NodeInfo * option error) :=
  w ← get ;
  let nodes := nodeRegistry.list (nodes (node w)) in
  let nodeResults :=
    (λ nd, mkNodeResult (controlproto.Node_UID nd) (controlproto.Node_Name nd)
                        (controlproto.Node_NumClients nd) (controlproto.Node_NumUsers nd)
                        (controlproto.Node_NumChannels nd) (controlproto.Node_Uptime nd))
      <$> nodes in
  mret (mkNodeInfo (engine_name (engine (node w))) nodeResults, None).

(** *** Join and leave messages *)
Definition publishJoin (ch : string) (join : proto.Join) (opts : option ChannelOptions)
  : M (option error) :=
  resolved ← match opts with
             | None => ChannelOpts ch
             | Some o => mret (Some o)
             end ;
  match resolved with
  | None => mret (makeErrChan ErrNamespaceNotFound)
  | Some opts =>
      inc_messagesSentCount "join" ;;
      with_engine (engine_publishJoin ch join opts)
  end.

Definition publishLeave (ch : string) (leave : proto.Leave) (opts : option ChannelOptions)
  : M (option error) :=
  resolved ← match opts with
             | None => ChannelOpts ch
             | Some o => mret (Some o)
             end ;
  match resolved with
  | None => mret (makeErrChan ErrNamespaceNotFound)
  | Some opts =>
      inc_messagesSentCount "leave" ;;
      with_engine (engine_publishLeave ch leave opts)
  end.

(** *** Clients and subscriptions *)
Definition addClient (c : Client) : M (option error) :=
  inc_actionCount "add_client" ;;
  with_hub (hub_add c).

Definition removeClient (c : Client) : M (option error) :=
  inc_actionCount "remove_client" ;;
  with_hub (hub_remove c).

Definition addSubscription (ch : string) (c : Client) : M (option error) :=
  inc_actionCount "add_subscription" ;;
  '(first, err) ← with_hub (hub_addSub ch c) ;
  match err with
  | Some err => mret (Some err)
  | None =>
      if first : bool then with_engine (engine_subscribe ch)
      else mret None
  end.

Definition removeSubscription (ch : string) (c : Client) : M (option error) :=
  inc_actionCount "remove_subscription" ;;
  '(empty, err) ← with_hub (hub_removeSub ch c) ;
  match err with
  | Some err => mret (Some err)
  | None =>
      if empty : bool then with_engine (engine_unsubscribe ch)
      else mret None
  end.

(** *** Presence and history

    A [nil] map is [None]; a [nil] slice is the empty list. *)
Definition addPresence (ch uid : string) (info : proto.ClientInfo) : M (option error) :=
  w ← get ;
  let expire := ClientPresenceExpireInterval (config (node w)) in
  inc_actionCount "add_presence" ;;
  with_engine (engine_addPresence ch uid info expire).

Definition removePresence (ch uid : string) : M (option error) :=
  inc_actionCount "remove_presence" ;;
  with_engine (engine_removePresence ch uid).

Definition Presence (ch : string)
  : M (option (gmap string proto.ClientInfo) * option error) :=
  inc_actionCount "presence" ;;
  '(presence, err) ← with_engine (engine_presence ch) ;
  match err with
  | Some err => mret (None, Some err)
  | None => mret (Some presence, None)
  end.

Definition History (ch : string) : M (list proto.Publication * option error) :=
  inc_actionCount "history" ;;
  '(publications, err) ← with_engine (engine_history ch 0) ;
  match err with
  | Some err => mret ([], Some err)
  | None => mret (publications, None)
  end.

Definition RemoveHistory (ch : string) : M (option error) :=
  inc_actionCount "remove_history" ;;
  with_engine (engine_removeHistory ch).

Definition LastMessageID (ch : string) : M (string * option error) :=
  inc_actionCount "last_message_id" ;;
  '(publications, err) ← with_engine (engine_history ch 1) ;
  match err with
  | Some err => mret ("", Some err)
  | None =>
      match publications with
      | [] => mret ("", None)
      | first :: _ => mret (proto.Publication_UID first, None)
      end
  end.

Definition Channels : M (list string * option error) :=
  with_engine engine_channels.

End NodeModelMore.

(** ** Test doubles for the collaborators

    Small executable stand-ins, used to run the node on concrete
    inputs: a hub that keeps (user, channel) pairs and can be told to
    fail, an engine that keeps what was published, codecs that carry
    the user name as bytes, and a counting NUID generator. *)
Module TestDoubles.

Definition TestOptions := nat.
Definition TestNamespaces := list (string * TestOptions).

Fixpoint lookup_namespace (name : string) (l : TestNamespaces) : option TestOptions :=
  match l with
  | [] => None
  | (n, o) :: rest => if decide (n = name) then Some o else lookup_namespace name rest
  end.

#[export] Instance test_config : ConfigAPI TestNamespaces TestOptions := {
  channelOpts c name :=
    if decide (name = "") then Some 0%nat else lookup_namespace name (ConfigNamespaces c)
}.

Record TestHub := mkTestHub {
  subscriptions : list (string * string);
  hub_fails : bool
}.

Definition hub_result (h h' : TestHub) : option error * TestHub :=
  if hub_fails h then (Some (ErrCollaborator "hub"), h) else (None, h').

#[export] Instance test_hub : HubAPI TestHub := {
  hub_unsubscribe user ch h :=
    hub_result h
      (mkTestHub
         (filter (λ p, ¬ (p.1 = user ∧ (ch = "" ∨ p.2 = ch))) (subscriptions h))
         false);
  hub_disconnect user _ h :=
    hub_result h (mkTestHub (filter (λ p, p.1 ≠ user) (subscriptions h)) false);
  hub_shutdown h := hub_result h (mkTestHub [] false);
  hub_NumSubscribers ch h :=
    Z.of_nat (length (filter (λ p, p.2 = ch) (subscriptions h)));
  hub_broadcastPublication _ _ h := hub_result h h;
  hub_broadcastJoin _ _ h := hub_result h h;
  hub_broadcastLeave _ _ h := hub_result h h
}.

Record TestEngine := mkTestEngine {
  control_sent : list controlproto.Command;
  publications_sent : list (string * proto.Publication);
  engine_fails : bool
}.

#[export] Instance test_engine : EngineAPI TestOptions TestEngine := {
  engine_publish ch pub _ e :=
    if engine_fails e then (Some (ErrCollaborator "engine"), e)
    else (None, mkTestEngine (control_sent e) (publications_sent e ++ [(ch, pub)]) false);
  engine_publishControl cmd e :=
    if engine_fails e then (Some (ErrCollaborator "engine"), e)
    else (None, mkTestEngine (control_sent e ++ [cmd]) (publications_sent e) false)
}.

Definition decode_text (b : bytes) : string + error :=
  match b with
  | [] => inr (ErrCollaborator "empty params")
  | _ => inl (String.string_of_list_byte b)
  end.

#[export] Instance test_control_codec : ControlCodec := {
  EncodeNode n := (String.list_byte_of_string (controlproto.Node_UID n), None);
  EncodeUnsubscribe u := (String.list_byte_of_string (controlproto.Unsubscribe_User u), None);
  EncodeDisconnect d := (String.list_byte_of_string (controlproto.Disconnect_User d), None);
  DecodeNode b :=
    match decode_text b with
    | inl s => inl (controlproto.mkNode s "" "" 0 0 0 0)
    | inr e => inr e
    end;
  DecodeUnsubscribe b :=
    match decode_text b with
    | inl s => inl (controlproto.mkUnsubscribe s "")
    | inr e => inr e
    end;
  DecodeDisconnect b := inl (controlproto.mkDisconnect (String.string_of_list_byte b))
}.

Definition test_client (b : bytes) : proto.ClientInfo :=
  proto.mkClientInfo (String.string_of_list_byte b) "" [] [].

#[export] Instance test_message_codec : MessageCodec := {
  DecodePublication b :=
    match b with
    | [] => inr (ErrCollaborator "empty data")
    | _ => inl (proto.mkPublication "" b None)
    end;
  DecodeJoin b := inl (proto.mkJoin (test_client b));
  DecodeLeave b := inl (proto.mkLeave (test_client b))
}.

Fixpoint tally (n : nat) : string :=
  match n with
  | O => ""
  | S n' => String "i" (tally n')
  end.

#[export] Instance test_nuid : NuidAPI nat := {
  nuid_Next n := (String "N" (tally n), S n)
}.

Definition test_config_value : Config TestNamespaces :=
  mkConfig "node" "0.0.0" "$" ":" "#" "," "&" (25 * Second) [("chat", 10%nat)].

Definition test_node (uid : string) (h : TestHub) (e : TestEngine)
  : @Node TestNamespaces TestHub TestEngine :=
  mkNode uid 1000 test_config_value h e (nodeRegistry.newNodeRegistry uid) false false.

Definition test_world (uid : string) (h : TestHub) (e : TestEngine)
  : @World TestNamespaces TestOptions TestHub TestEngine nat :=
  mkWorld (test_node uid h e) ∅ ∅ ∅ [] 2000 0%nat [].

Definition hub0 : TestHub :=
  mkTestHub [("u1", "chat:lobby"); ("u2", "chat:lobby"); ("u1", "news")] false.
Definition hub_broken : TestHub := mkTestHub [("u1", "chat:lobby")] true.
Definition engine0 : TestEngine := mkTestEngine [] [] false.
Definition engine_broken : TestEngine := mkTestEngine [] [] true.

Definition w0 := test_world "n1" hub0 engine0.
Definition w_peer := test_world "n2" hub0 engine0.
Definition w_hub_broken := test_world "n1" hub_broken engine0.
Definition w_engine_broken := test_world "n1" hub0 engine_broken.

End TestDoubles.

(** Test doubles for the rest of the hub and engine methods: a client
    is its user name; the engine answers from what it has kept. *)
Module TestDoublesMore.

Import TestDoubles.

#[export] Instance test_validate : ConfigValidateAPI TestNamespaces := {
  Validate c :=
    if decide (Name c = "") then Some (ErrCollaborator "config error") else None
}.

Definition subscribers (ch : string) (h : TestHub) : list (string * string) :=
  filter (λ p, p.2 = ch) (subscriptions h).

#[export] Instance test_hub_clients : HubClientAPI TestHub string := {
  hub_add _ h := hub_result h h;
  hub_remove c h := hub_result h (mkTestHub (filter (λ p, p.1 ≠ c) (subscriptions h)) false);
  hub_addSub ch c h :=
    if hub_fails h then ((false, Some (ErrCollaborator "hub")), h)
    else ((bool_decide (subscribers ch h = []), None),
          mkTestHub (subscriptions h ++ [(c, ch)]) false);
  hub_removeSub ch c h :=
    if hub_fails h then ((false, Some (ErrCollaborator "hub")), h)
    else
      let left := filter (λ p, ¬ (p.1 = c ∧ p.2 = ch)) (subscriptions h) in
      ((bool_decide (filter (λ p, p.2 = ch) left = []), None), mkTestHub left false);
  hub_NumClients h := Z.of_nat (length (subscriptions h));
  hub_NumUsers h := Z.of_nat (length (subscriptions h));
  hub_NumChannels h := Z.of_nat (length (subscriptions h))
}.

Definition engine_result {A} (e : TestEngine) (a : A) (zero : A)
  : (A * option error) * TestEngine :=
  if engine_fails e then ((zero, Some (ErrCollaborator "engine")), e) else ((a, None), e).

#[export] Instance test_engine_more : EngineMoreAPI TestOptions TestEngine := {
  engine_run e := if engine_fails e then (Some (ErrCollaborator "engine"), e) else (None, e);
  engine_name _ := "test";
  engine_publishJoin _ _ _ e :=
    if engine_fails e then (Some (ErrCollaborator "engine"), e) else (None, e);
  engine_publishLeave _ _ _ e :=
    if engine_fails e then (Some (ErrCollaborator "engine"), e) else (None, e);
  engine_subscribe _ e :=
    if engine_fails e then (Some (ErrCollaborator "engine"), e) else (None, e);
  engine_unsubscribe _ e :=
    if engine_fails e then (Some (ErrCollaborator "engine"), e) else (None, e);
  engine_channels e := engine_result e (fst <$> publications_sent e) [];
  engine_history ch limit e :=
    engine_result e
      (let found := snd <$> filter (λ p, p.1 = ch) (publications_sent e) in
       if limit =? 0 then found else take (Z.to_nat limit) found) [];
  engine_removeHistory _ e :=
    if engine_fails e then (Some (ErrCollaborator "engine"), e) else (None, e);
  engine_addPresence _ _ _ _ e :=
    if engine_fails e then (Some (ErrCollaborator "engine"), e) else (None, e);
  engine_removePresence _ _ e :=
    if engine_fails e then (Some (ErrCollaborator "engine"), e) else (None, e);
  engine_presence _ e := engine_result e ∅ ∅
}.

(** A control codec that carries every field, for the properties that
    follow a command from one node to another: a number in unary (ones
    closed by a zero), a string as its length and its bytes, an
    integer as a sign byte and its magnitude. *)
Definition put_nat (n : nat) : bytes := repeat Byte.x01 n ++ [Byte.x00].

Fixpoint get_nat (b : bytes) : option (nat * bytes) :=
  match b with
  | [] => None
  | x :: rest =>
      if Byte.eqb x Byte.x00 then Some (O, rest)
      else if Byte.eqb x Byte.x01 then
        match get_nat rest with
        | Some (n, rest') => Some (S n, rest')
        | None => None
        end
      else None
  end.

Definition put_string (s : string) : bytes :=
  put_nat (length (String.list_byte_of_string s)) ++ String.list_byte_of_string s.

Definition get_string (b : bytes) : option (string * bytes) :=
  match get_nat b with
  | Some (n, rest) =>
      if decide (n ≤ length rest)%nat
      then Some (String.string_of_list_byte (take n rest), drop n rest)
      else None
  | None => None
  end.

Definition put_Z (z : Z) : bytes :=
  (if z <? 0 then Byte.x01 else Byte.x00) :: put_nat (Z.abs_nat z).

Definition get_Z (b : bytes) : option (Z * bytes) :=
  match b with
  | [] => None
  | sign :: rest =>
      match get_nat rest with
      | Some (n, rest') =>
          Some (if Byte.eqb sign Byte.x01 then - Z.of_nat n else Z.of_nat n, rest')
      | None => None
      end
  end.

Definition put_Node (n : controlproto.Node) : bytes :=
  put_string (controlproto.Node_UID n) ++ put_string (controlproto.Node_Name n)
  ++ put_string (controlproto.Node_Version n)
  ++ put_Z (controlproto.Node_NumClients n) ++ put_Z (controlproto.Node_NumUsers n)
  ++ put_Z (controlproto.Node_NumChannels n) ++ put_Z (controlproto.Node_Uptime n).

Definition get_Node (b : bytes) : option controlproto.Node :=
  '(uid, b) ← get_string b ;
  '(name, b) ← get_string b ;
  '(version, b) ← get_string b ;
  '(clients, b) ← get_Z b ;
  '(users, b) ← get_Z b ;
  '(channels, b) ← get_Z b ;
  '(uptime, _) ← get_Z b ;
  Some (controlproto.mkNode uid name version clients users channels uptime).

Definition put_Unsubscribe (u : controlproto.Unsubscribe) : bytes :=
  put_string (controlproto.Unsubscribe_User u) ++ put_string (controlproto.Unsubscribe_Channel u).

Definition get_Unsubscribe (b : bytes) : option controlproto.Unsubscribe :=
  '(user, b) ← get_string b ;
  '(channel, _) ← get_string b ;
  Some (controlproto.mkUnsubscribe user channel).

Definition decoded {T} (r : option T) : T + error :=
  match r with
  | Some t => inl t
  | None => inr (ErrCollaborator "bad params")
  end.

Definition exact_control_codec : ControlCodec := {|
  EncodeNode n := (put_Node n, None);
  EncodeUnsubscribe u := (put_Unsubscribe u, None);
  EncodeDisconnect d := (put_string (controlproto.Disconnect_User d), None);
  DecodeNode b := decoded (get_Node b);
  DecodeUnsubscribe b := decoded (get_Unsubscribe b);
  DecodeDisconnect b := decoded (controlproto.mkDisconnect ∘ fst <$> get_string b)
|}.

End TestDoublesMore.

(** ** Vocabulary of the properties

    What the statements below are written with: worlds reached by one
    counter increment, the commands the node builds, later states of
    the NUID generator, the registry invariant, and occurrences of a
    delimiter in a channel name. *)
Section NodeVocabulary.

Context {Namespaces ChannelOptions Hub Engine Nuid : Type}.
Context `{!ConfigAPI Namespaces ChannelOptions} `{!HubAPI Hub}
        `{!EngineAPI ChannelOptions Engine} `{!ControlCodec} `{!MessageCodec}
        `{!NuidAPI Nuid}.

Abbreviation World := (@World Namespaces ChannelOptions Hub Engine Nuid).
Abbreviation M := (@M Namespaces ChannelOptions Hub Engine Nuid).

(** The world after the received-counter of [label] went up by one. *)
Definition received (label : string) (w : World) : World :=
  set_messagesReceivedCount (Inc label (messagesReceivedCount w)) w.

Definition sent (label : string) (w : World) : World :=
  set_messagesSentCount (Inc label (messagesSentCount w)) w.

(** The control command that [pubUnsubscribe] builds. *)
Definition unsubscribe_command (w : World) (user ch : string) : controlproto.Command :=
  controlproto.mkCommand (uid (node w)) controlproto.MethodTypeUnsubscribe
    (EncodeUnsubscribe (controlproto.mkUnsubscribe user ch)).1.

(** [Unsubscribe] once the argument checks have passed: the local step,
    then the broadcast. *)
Definition Unsubscribe_steps (user ch : string) : M (option error) :=
  err ← on_hub (CallHubUnsubscribe user ch) (hub_unsubscribe user ch) ;
  match err with
  | Some _ => mret (Some ErrInternalServerError)
  | None =>
      err ← pubUnsubscribe user ch ;
      match err with
      | Some _ => mret (Some ErrInternalServerError)
      | None => mret None
      end
  end.

(** The control command that [pubDisconnect] builds: the user and
    nothing of [reconnect]. *)
Definition disconnect_command (w : World) (user : string) : controlproto.Command :=
  controlproto.mkCommand (uid (node w)) controlproto.MethodTypeDisconnect
    (EncodeDisconnect (controlproto.mkDisconnect user)).1.



(** The reading of C4 in the specification: the message is dropped and
    an entry of level error is added to the log. *)
Definition logged_and_dropped (message : proto.Message) (w : World) : Prop :=
  ∃ w' entry,
    handleClientMessage message w = Done None w'
    ∧ logged w' = logged w ++ [entry]
    ∧ LogEntry_Level entry = LogLevelError
    ∧ calls w' = calls w
    ∧ node w' = node w.

End NodeVocabulary.

Section RegistryVocabulary.

Variables (now : Z) (delay : Duration).

(** A record the loop body of [clean] deletes when it visits it. *)
Definition evicted (r : nodeRegistry.t) (uid : string) : Prop :=
  uid ≠ nodeRegistry.currentUID r
  ∧ ∀ updated, nodeRegistry.updates r !! uid = Some updated →
               sub64 now updated > whole_seconds delay.

#[global] Instance evicted_dec r uid : Decision (evicted r uid).
Proof.
  unfold evicted. destruct (nodeRegistry.updates r !! uid) as [t|].
  - destruct (decide (uid ≠ nodeRegistry.currentUID r ∧ sub64 now t > whole_seconds delay))
      as [Hyes|Hno].
    + left. split; [tauto|]. intros ? [= <-]. tauto.
    + right. intros [? Hall]. apply Hno. split; [done|]. by apply Hall.
  - destruct (decide (uid ≠ nodeRegistry.currentUID r)) as [Hyes|Hno].
    + left. split; [done|]. intros ? [=].
    + right. tauto.
Defined.

End RegistryVocabulary.

(** Unix timestamps whose differences fit in an [int64]. *)
Definition timestamp_ok (t : Z) : Prop := - 2 ^ 62 ≤ t < 2 ^ 62.

(** The registry as its own operations keep it: every record has a
    last-seen timestamp, and the timestamps are clock values. *)
Definition registry_wf (r : nodeRegistry.t) : Prop :=
  map_Forall (λ uid _, is_Some (nodeRegistry.updates r !! uid)) (nodeRegistry.nodes r)
  ∧ map_Forall (λ _ t, timestamp_ok t) (nodeRegistry.updates r).

Section GrammarVocabulary.

Context {Namespaces : Type}.
Implicit Types (c : Config Namespaces) (ch rest user : string).

(** [rest] is [ch] with the private prefix stripped from its front, if
    it was there. *)
Definition stripped (prefix ch rest : string) : Prop :=
  ch = prefix +:+ rest ∨ ((∀ r, ch ≠ prefix +:+ r) ∧ rest = ch).

(** [head] ends where the leftmost occurrence of [sep] in [s] starts. *)
Definition before_first (sep s head : string) : Prop :=
  (∃ tail, s = head +:+ sep +:+ tail)
  ∧ ∀ u v, s = u +:+ sep +:+ v → (len head ≤ len u)%nat.

(** [seg] starts where the rightmost occurrence of [sep] in [s] ends. *)
Definition after_last (sep s seg : string) : Prop :=
  ∃ head, s = head +:+ sep +:+ seg
          ∧ ∀ u v, s = u +:+ sep +:+ v → (len u ≤ len head)%nat.

(** The reading of C6 in the specification, for any configuration. *)
Definition namespaceName_as_specified c ch : Prop :=
  ∀ rest, stripped (ChannelPrivatePrefix c) ch rest →
    (∀ ns, before_first (ChannelNamespaceBoundary c) rest ns → namespaceName c ch = Some ns)
    ∧ ((∀ u v, rest ≠ u +:+ ChannelNamespaceBoundary c +:+ v) →
       namespaceName c ch = Some "").

(** No two occurrences of [sep] in [s] overlap. *)
Definition no_overlap (sep s : string) : Prop :=
  ∀ u v u' v', s = u +:+ sep +:+ v → s = u' +:+ sep +:+ v' →
               (len u < len u')%nat → (len u + len sep ≤ len u')%nat.

(** The reading of C5 in the specification, for any configuration. *)
Definition userAllowed_as_specified c ch user : Prop :=
  ((∀ u v, ch ≠ u +:+ ChannelUserBoundary c +:+ v) → userAllowed c ch user = Some true)
  ∧ (∀ seg, after_last (ChannelUserBoundary c) ch seg →
       userAllowed c ch user
       = Some (bool_decide (user ∈ Split seg (ChannelUserSeparator c)))).

End GrammarVocabulary.

Section NodeVocabularyMore.

Context {Namespaces ChannelOptions Hub Engine Nuid : Type}.
Context `{!ControlCodec}.

Abbreviation World := (@World Namespaces ChannelOptions Hub Engine Nuid).

(** What no message handler and no API call changes: the node's uid,
    start time and configuration, and the two shutdown fields. *)
Definition node_static (w w' : World) : Prop :=
  uid (node w') = uid (node w)
  ∧ startedAt (node w') = startedAt (node w)
  ∧ config (node w') = config (node w)
  ∧ shutdown (node w') = shutdown (node w)
  ∧ shutdownCh (node w') = shutdownCh (node w)
  ∧ nodeRegistry.currentUID (nodes (node w')) = nodeRegistry.currentUID (nodes (node w)).

(** The registry knows the node itself. *)
Definition self_known (w : World) : Prop :=
  nodeRegistry.currentUID (nodes (node w)) = uid (node w)
  ∧ is_Some (nodeRegistry.nodes (nodes (node w)) !! uid (node w)).

(** The record [pubNode] announces. *)
Definition self_info `{!HubClientAPI Hub Client} (w : World) : controlproto.Node :=
  controlproto.mkNode (uid (node w)) (Name (config (node w))) (Version (config (node w)))
    (uint32 (hub_NumClients (hub (node w))))
    (uint32 (hub_NumUsers (hub (node w))))
    (uint32 (hub_NumChannels (hub (node w))))
    (uint32 (sub64 (clock w) (startedAt (node w)))).

(** The control command [pubNode] publishes. *)
Definition node_command `{!HubClientAPI Hub Client} (w : World) : controlproto.Command :=
  controlproto.mkCommand (uid (node w)) controlproto.MethodTypeNode
    (EncodeNode (self_info w)).1.

(** One more entry of level error in the log. *)
Definition logged_error (w w' : World) : Prop :=
  ∃ entry, logged w' = logged w ++ [entry] ∧ LogEntry_Level entry = LogLevelError.

(** The error the message decoder gives on a client message, if any. *)
Definition decode_error `{!MessageCodec} (message : proto.Message) : option error :=
  match proto.Message_Type message with
  | proto.MessageTypePublication =>
      match DecodePublication (proto.Message_Data message) with
      | inr err => Some err
      | inl _ => None
      end
  | proto.MessageTypeJoin =>
      match DecodeJoin (proto.Message_Data message) with
      | inr err => Some err
      | inl _ => None
      end
  | proto.MessageTypeLeave =>
      match DecodeLeave (proto.Message_Data message) with
      | inr err => Some err
      | inl _ => None
      end
  | proto.MessageTypeUnknown _ => None
  end.

(** A computation that, when it returns, has left the static part of
    the node as it found it. *)
Definition keeps_static {A} (m : @M Namespaces ChannelOptions Hub Engine Nuid A) : Prop :=
  ∀ w a w', m w = Done a w' → node_static w w'.

(** A registry record as [Info] reports it. *)
Definition node_result (nd : controlproto.Node) : NodeResult :=
  mkNodeResult (controlproto.Node_UID nd) (controlproto.Node_Name nd)
    (controlproto.Node_NumClients nd) (controlproto.Node_NumUsers nd)
    (controlproto.Node_NumChannels nd) (controlproto.Node_Uptime nd).

End NodeVocabularyMore.

(** ** Test inputs *)
Import TestDoubles.
Import TestDoublesMore.

Abbreviation TWorld := (@World TestNamespaces TestOptions TestHub TestEngine nat).

Definition self_disconnect : controlproto.Command :=
  controlproto.mkCommand "n1" controlproto.MethodTypeDisconnect
    (String.list_byte_of_string "u1").

Definition peer_disconnect : controlproto.Command :=
  controlproto.mkCommand "n2" controlproto.MethodTypeDisconnect
    (String.list_byte_of_string "u1").

(** What is looked at after a run; [None] for a panic. *)
Definition observe {A B} (f : A → TWorld → B)
    (r : @Res TestNamespaces TestOptions TestHub TestEngine nat A) : option B :=
  match r with
  | Done a w => Some (f a w)
  | Panic _ => None
  end.

Definition hello : proto.Publication :=
  proto.mkPublication "" (String.list_byte_of_string "hi") None.

Definition unknown_message : proto.Message :=
  proto.mkMessage (proto.MessageTypeUnknown 7) "chat:lobby"
    (String.list_byte_of_string "x").

(** A boundary that overlaps itself. *)
Definition overlapping_config : Config TestNamespaces :=
  mkConfig "node" "0.0.0" "$" ":" "aa" "," "&" (25 * Second) [].

(** The zero [Config]: every delimiter is the empty string. *)
Definition zero_config : Config TestNamespaces := mkConfig "" "" "" "" "" "" "" 0 [].

(** The world a run leaves, or the given one after a panic. *)
Definition world_after {A} (r : @Res TestNamespaces TestOptions TestHub TestEngine nat A)
    (otherwise : TWorld) : TWorld :=
  match r with
  | Done _ w => w
  | Panic _ => otherwise
  end.

Definition undecodable_node_command : controlproto.Command :=
  controlproto.mkCommand "n2" controlproto.MethodTypeNode [].

Definition peer_node_command : controlproto.Command :=
  controlproto.mkCommand "n2" controlproto.MethodTypeNode
    (String.list_byte_of_string "n2").

Definition peer_only_uid : controlproto.Node := controlproto.mkNode "n2" "" "" 0 0 0 0.

(** A node whose namespace boundary is the empty string. *)
Definition w_empty_boundary : TWorld :=
  mkWorld (mkNode "n1" 1000 (mkConfig "node" "0.0.0" "$" "" "#" "," "&" 0 [])
             hub0 engine0 (nodeRegistry.newNodeRegistry "n1") false false)
          ∅ ∅ ∅ [] 2000 0%nat [].

(** A node that takes its ids from the NUID generator, here with prefix
    AAAAAAAAAAAA, sequence number 0 and increment 33. *)
Definition nuid0 : nuid.NUID :=
  nuid.mk "AAAAAAAAAAAA" 0 33 (λ k, ("BBBBBBBBBBBB", Z.of_nat k, 33)) 0.

Abbreviation NWorld := (@World TestNamespaces TestOptions TestHub TestEngine nuid.NUID).

Definition w_nuid : NWorld :=
  mkWorld (test_node "n1" hub0 engine0) ∅ ∅ ∅ [] 2000 nuid0 [].

(** The same node with the sequence number one step before [maxSeq]. *)
Definition w_nuid_last : NWorld :=
  mkWorld (test_node "n1" hub0 engine0) ∅ ∅ ∅ [] 2000
    (nuid.mk "AAAAAAAAAAAA" (nuid.maxSeq - 1) 33 (λ k, ("BBBBBBBBBBBB", Z.of_nat k, 33)) 0) [].

Definition observe_nuid {A B} (f : A → NWorld → B)
    (r : @Res TestNamespaces TestOptions TestHub TestEngine nuid.NUID A) : option B :=
  match r with
  | Done a w => Some (f a w)
  | Panic _ => None
  end.

(** Peer expiry: the node itself and a peer last seen 60 s ago. *)
Definition self_record : controlproto.Node := controlproto.mkNode "self" "node" "0.0.0" 2 1 1 500.
Definition peer_record : controlproto.Node := controlproto.mkNode "A" "peer" "0.0.0" 5 3 2 900.

Definition two_nodes : nodeRegistry.t :=
  nodeRegistry.add 1940 peer_record
    (nodeRegistry.add 2000 self_record (nodeRegistry.newNodeRegistry "self")).

(** ** Properties of the control plane, the API and the lifecycle *)
Section NodeProperties.

Context {Namespaces ChannelOptions Hub Engine Nuid : Type}.
Context `{!ConfigAPI Namespaces ChannelOptions} `{!HubAPI Hub}
        `{!EngineAPI ChannelOptions Engine} `{!ControlCodec} `{!MessageCodec}
        `{!NuidAPI Nuid}.

Abbreviation World := (@World Namespaces ChannelOptions Hub Engine Nuid).
Abbreviation M := (@M Namespaces ChannelOptions Hub Engine Nuid).

Lemma counter_Inc_eq (c : CounterVec) label : counter (Inc label c) label = S (counter c label).
Proof. unfold counter, Inc. by rewrite lookup_insert_eq. Qed.

Lemma counter_Inc_ne (c : CounterVec) label other :
  label ≠ other → counter (Inc label c) other = counter c other.
Proof. intros Hne. unfold counter, Inc. by rewrite lookup_insert_ne. Qed.

Ltac run :=
  unfold mbind, M_bind, mret, M_ret, get, modify, modify_node, record, log,
    inc_messagesReceivedCount, inc_messagesSentCount, panic; simpl.

(** What a self-originated command does: count it, nothing else. *)
Lemma handleControl_self (cmd : controlproto.Command) (w : World) :
  controlproto.Command_UID cmd = uid (node w) →
  handleControl cmd w = Done None (received "control" w).
Proof.
  intros Huid. unfold handleControl. run.
  destruct (decide _) as [_|Hne]; [reflexivity | contradiction].
Qed.

(** C1. A control command whose UID is the local node's uid makes
    [handleControl] return [nil] and leaves the node registry and the
    hub as they were, whatever its method and params; no hub or engine
    call is made and nothing is logged. *)
Theorem handleControl_self_suppression
    (uid0 : string) (method : controlproto.MethodType) (params : bytes) (w : World) :
  uid0 = uid (node w) →
  ∃ w', handleControl (controlproto.mkCommand uid0 method params) w = Done None w'
        ∧ nodes (node w') = nodes (node w)
        ∧ hub (node w') = hub (node w)
        ∧ node w' = node w
        ∧ calls w' = calls w
        ∧ logged w' = logged w.
Proof.
  intros Huid. eexists. split.
  - apply handleControl_self. exact Huid.
  - repeat split.
Qed.

(** [handleControl] always returns, and what it changes outside the
    received-counter starts from the counted world. *)
Lemma handleControl_counts (cmd : controlproto.Command) (w : World) :
  ∃ r w', handleControl cmd w = Done r w'
          ∧ messagesReceivedCount w' = Inc "control" (messagesReceivedCount w).
Proof.
  unfold handleControl. run.
  destruct (decide _) as [_|_]; [by eauto|].
  destruct (controlproto.Command_Method cmd); simpl.
  - destruct (DecodeNode _); simpl; unfold nodeCmd; run; eauto.
  - destruct (DecodeUnsubscribe _); simpl; [|by eauto].
    unfold on_hub; run. destruct (hub_unsubscribe _ _ _); simpl; eauto.
  - destruct (DecodeDisconnect _); simpl; [|by eauto].
    unfold on_hub; run. destruct (hub_disconnect _ _ _); simpl; eauto.
  - eauto.
Qed.

(** C10. [handleControl] counts the command under the label "control"
    before it looks at the UID: for every command it returns with that
    counter one higher and every other label of the received-counter
    unchanged; for a command of the node's own uid the counted world is
    the whole result. *)
Theorem handleControl_counts_before_self_check (cmd : controlproto.Command) (w : World) :
  (∃ r w', handleControl cmd w = Done r w'
           ∧ counter (messagesReceivedCount w') "control"
             = S (counter (messagesReceivedCount w) "control")
           ∧ ∀ label, label ≠ "control" →
               counter (messagesReceivedCount w') label
               = counter (messagesReceivedCount w) label)
  ∧ (controlproto.Command_UID cmd = uid (node w) →
     handleControl cmd w
     = Done None (set_messagesReceivedCount
                    (<["control" := S (counter (messagesReceivedCount w) "control")]>
                       (messagesReceivedCount w)) w)).
Proof.
  split.
  - destruct (handleControl_counts cmd w) as (r & w' & Hrun & Hcount).
    exists r, w'. rewrite Hcount. split; [exact Hrun|]. split.
    + apply counter_Inc_eq.
    + intros label Hne. apply counter_Inc_ne. congruence.
  - intros Huid. by apply handleControl_self.
Qed.

(** [ChannelOpts] reads the configuration and changes nothing. *)
Lemma ChannelOpts_pure (ch : string) (w w' : World) (r : option ChannelOptions) :
  ChannelOpts ch w = Done r w' → w' = w.
Proof.
  unfold ChannelOpts, or_panic. run.
  destruct (namespaceName _ _); simpl; congruence.
Qed.

Lemma pubUnsubscribe_run (user ch : string) (w : World) :
  pubUnsubscribe user ch w
  = on_engine (CallEnginePublishControl (unsubscribe_command w user ch))
      (engine_publishControl (unsubscribe_command w user ch)) (sent "control" w).
Proof.
  unfold pubUnsubscribe, unsubscribe_command, publishControl.
  destruct (EncodeUnsubscribe _) as [params e]. reflexivity.
Qed.

Lemma Unsubscribe_checked (user ch : string) (w : World) :
  user ≠ "" →
  (ch = "" ∨ ∃ opts, ChannelOpts ch w = Done (Some opts) w) →
  Unsubscribe user ch w = Unsubscribe_steps user ch w.
Proof.
  intros Huser Hch. unfold Unsubscribe, Unsubscribe_steps.
  destruct (decide (user = "")) as [|_]; [contradiction|].
  destruct (decide (ch ≠ "")) as [Hne|Heq].
  - destruct Hch as [->|[opts Hopts]]; [contradiction|].
    unfold mbind at 1. unfold M_bind. unfold mbind at 1. unfold M_bind.
    rewrite Hopts. reflexivity.
  - reflexivity.
Qed.

(** The cases of [Unsubscribe] by what [ChannelOpts] returns, when it
    returns: an empty user gives [BadRequest]; else a non-empty channel
    whose namespace does not resolve gives [NamespaceNotFound]; else
    [hub.unsubscribe] runs first, and the control command is published
    only after it succeeded. *)
Lemma Unsubscribe_cases (user ch : string) (w : World) :
  (user = "" → Unsubscribe user ch w = Done (Some ErrBadRequest) w)
  ∧ (user ≠ "" → ch ≠ "" → ChannelOpts ch w = Done None w →
     Unsubscribe user ch w = Done (Some ErrNamespaceNotFound) w)
  ∧ (user ≠ "" → (ch = "" ∨ ∃ opts, ChannelOpts ch w = Done (Some opts) w) →
     let local := hub_unsubscribe user ch (hub (node w)) in
     let cmd := unsubscribe_command w user ch in
     let remote := engine_publishControl cmd (engine (node w)) in
     (is_Some local.1 →
      ∃ w', Unsubscribe user ch w = Done (Some ErrInternalServerError) w'
            ∧ calls w' = calls w ++ [CallHubUnsubscribe user ch]
            ∧ hub (node w') = local.2
            ∧ engine (node w') = engine (node w)
            ∧ messagesSentCount w' = messagesSentCount w)
     ∧ (local.1 = None →
        ∃ w', Unsubscribe user ch w
              = Done (match remote.1 with
                      | Some _ => Some ErrInternalServerError
                      | None => None
                      end) w'
              ∧ calls w' = calls w ++ [CallHubUnsubscribe user ch;
                                       CallEnginePublishControl cmd]
              ∧ hub (node w') = local.2
              ∧ engine (node w') = remote.2)).
Proof.
  split; [|split].
  - intros ->. reflexivity.
  - intros Huser Hch Hopts. unfold Unsubscribe.
    destruct (decide (user = "")) as [|_]; [contradiction|].
    destruct (decide (ch ≠ "")) as [_|]; [|contradiction].
    unfold mbind at 1. unfold M_bind. unfold mbind at 1. unfold M_bind.
    rewrite Hopts. reflexivity.
  - intros Huser Hch local cmd remote.
    rewrite (Unsubscribe_checked _ _ _ Huser Hch).
    unfold Unsubscribe_steps, on_hub. run. fold local.
    destruct local as [[e|] h'] eqn:Hlocal; simpl.
    + split; [intros _ | intros [=]]. eexists. split; [reflexivity|]. by repeat split.
    + split; [intros [? [=]] | intros _].
      rewrite pubUnsubscribe_run. unfold on_engine. run.
      change (unsubscribe_command _ user ch) with cmd. fold remote.
      destruct remote as [[e|] e'] eqn:Hremote; simpl;
        (eexists; split; [reflexivity|]); simpl; rewrite <- app_assoc; by repeat split.
Qed.

Lemma pubDisconnect_run (user : string) (reconnect : bool) (w : World) :
  pubDisconnect user reconnect w
  = on_engine (CallEnginePublishControl (disconnect_command w user))
      (engine_publishControl (disconnect_command w user)) (sent "control" w).
Proof.
  unfold pubDisconnect, disconnect_command, publishControl.
  destruct (EncodeDisconnect _) as [params e]. reflexivity.
Qed.

(** A peer that decodes a disconnect command calls
    [hub.disconnect(user, false)]. *)
Lemma handleControl_disconnect
    (cmd : controlproto.Command) (d : controlproto.Disconnect) (w : World) :
  controlproto.Command_UID cmd ≠ uid (node w) →
  controlproto.Command_Method cmd = controlproto.MethodTypeDisconnect →
  DecodeDisconnect (controlproto.Command_Params cmd) = inl d →
  handleControl cmd w
  = on_hub (CallHubDisconnect (controlproto.Disconnect_User d) false)
      (hub_disconnect (controlproto.Disconnect_User d) false) (received "control" w).
Proof.
  intros Huid Hmethod Hdecode. unfold handleControl. run.
  destruct (decide _) as [|_]; [contradiction|].
  rewrite Hmethod, Hdecode. reflexivity.
Qed.

Lemma on_hub_run {A} (c : Call) (f : Hub → A * Hub) (w : World) :
  on_hub c f w
  = Done (f (hub (node w))).1
      (set_node (set_hub (f (hub (node w))).2 (node w)) (set_calls (calls w ++ [c]) w)).
Proof. unfold on_hub. run. destruct (f _). reflexivity. Qed.

Lemma on_engine_run {A} (c : Call) (f : Engine → A * Engine) (w : World) :
  on_engine c f w
  = Done (f (engine (node w))).1
      (set_node (set_engine (f (engine (node w))).2 (node w)) (set_calls (calls w ++ [c]) w)).
Proof. unfold on_engine. run. destruct (f _). reflexivity. Qed.

(** C8. The disconnect control command built by [pubDisconnect] carries
    the user only: the call does the same for either value of
    [reconnect], and publishes the command whose params encode
    [Disconnect{User: user}].  A peer (a node of another uid) that
    receives a disconnect command and decodes it calls
    [hub.disconnect(user, false)] and nothing else; so a command sent by
    [pubDisconnect user reconnect], decoded back by the codec, ends in
    [hub.disconnect(user, false)] whatever [reconnect] was. *)
Theorem disconnect_broadcast_drops_reconnect
    (user : string) (reconnect : bool) (sender peer : World) :
  pubDisconnect user reconnect sender = pubDisconnect user (negb reconnect) sender
  ∧ (∃ r sender', pubDisconnect user reconnect sender = Done r sender'
       ∧ calls sender'
         = calls sender ++ [CallEnginePublishControl (disconnect_command sender user)]
       ∧ controlproto.Command_Params (disconnect_command sender user)
         = (EncodeDisconnect (controlproto.mkDisconnect user)).1)
  ∧ (∀ (cmd : controlproto.Command) (d : controlproto.Disconnect),
       controlproto.Command_UID cmd ≠ uid (node peer) →
       controlproto.Command_Method cmd = controlproto.MethodTypeDisconnect →
       DecodeDisconnect (controlproto.Command_Params cmd) = inl d →
       ∃ peer', handleControl cmd peer
                = Done (hub_disconnect (controlproto.Disconnect_User d) false
                          (hub (node peer))).1 peer'
         ∧ calls peer'
           = calls peer ++ [CallHubDisconnect (controlproto.Disconnect_User d) false]
         ∧ hub (node peer')
           = (hub_disconnect (controlproto.Disconnect_User d) false (hub (node peer))).2)
  ∧ (uid (node sender) ≠ uid (node peer) →
     (∀ d, DecodeDisconnect (EncodeDisconnect d).1 = inl d) →
     ∃ r peer', handleControl (disconnect_command sender user) peer = Done r peer'
       ∧ calls peer' = calls peer ++ [CallHubDisconnect user false]).
Proof.
  split; [|split; [|split]].
  - by rewrite !pubDisconnect_run.
  - rewrite pubDisconnect_run, on_engine_run. by eauto.
  - intros cmd d Huid Hmethod Hdecode.
    rewrite (handleControl_disconnect cmd d peer Huid Hmethod Hdecode), on_hub_run.
    by eauto.
  - intros Huid Hcodec.
    rewrite (handleControl_disconnect _ (controlproto.mkDisconnect user) peer);
      [|exact Huid|reflexivity|apply Hcodec].
    rewrite on_hub_run. by eauto.
Qed.

(** A node whose shutdown flag is set answers [Shutdown] with [nil] and
    touches nothing. *)
Lemma Shutdown_again (w : World) :
  shutdown (node w) = true → Shutdown w = Done None w.
Proof. intros Hflag. unfold Shutdown. run. by rewrite Hflag. Qed.

(** C9. [Shutdown] is idempotent.  On a node that is not shut down the
    call sets the flag, closes the shutdown channel, calls
    [hub.shutdown()] and returns its error; on the world it leaves, and
    on any world whose flag is set, a further call returns [nil] and
    changes nothing: no second close, no second [hub.shutdown()]. *)
Theorem Shutdown_idempotent (w : World) :
  shutdown (node w) = false →
  shutdownCh (node w) = false →
  ∃ w1, Shutdown w = Done (hub_shutdown (hub (node w))).1 w1
        ∧ shutdown (node w1) = true
        ∧ shutdownCh (node w1) = true
        ∧ hub (node w1) = (hub_shutdown (hub (node w))).2
        ∧ calls w1 = calls w ++ [CallCloseShutdownCh; CallHubShutdown]
        ∧ Shutdown w1 = Done None w1
        ∧ ∀ w2 : World, shutdown (node w2) = true → Shutdown w2 = Done None w2.
Proof.
  intros Hflag Hch.
  assert (Hrun : Shutdown w
    = on_hub CallHubShutdown hub_shutdown
        (set_calls (calls w ++ [CallCloseShutdownCh])
           (set_node (set_shutdownCh true (set_shutdown true (node w))) w))).
  { unfold Shutdown, close_shutdownCh. run. rewrite Hflag. simpl. rewrite Hch.
    reflexivity. }
  rewrite Hrun, on_hub_run. simpl. eexists. split; [reflexivity|]. simpl.
  repeat split.
  - by rewrite <- app_assoc.
  - intros w2 Hw2. by apply Shutdown_again.
Qed.



(** A publication whose namespace does not resolve is returned as it
    came, with [ErrNamespaceNotFound]; the engine is not called. *)
Lemma publish_unresolved (ch : string) (pub : proto.Publication) (w : World) :
  ChannelOpts ch w = Done None w →
  publish ch pub None w = Done (pub, Some ErrNamespaceNotFound) w.
Proof.
  intros Hopts. unfold publish. unfold mbind at 1. unfold M_bind at 1.
  rewrite Hopts. reflexivity.
Qed.

(** C4, as the code has it.  A client message whose type is none of
    Publication, Join, Leave is dropped silently: [handleClientMessage]
    returns [nil] and the world is untouched; in particular nothing is
    logged, nothing is broadcast and no counter moves. *)
Theorem handleClientMessage_unknown_dropped_silently (message : proto.Message) (w : World) :
  proto.Message_Type message ≠ proto.MessageTypePublication →
  proto.Message_Type message ≠ proto.MessageTypeJoin →
  proto.Message_Type message ≠ proto.MessageTypeLeave →
  handleClientMessage message w = Done None w.
Proof.
  intros Hpub Hjoin Hleave. unfold handleClientMessage.
  destruct (proto.Message_Type message); done.
Qed.

End NodeProperties.

(** ** Properties of the node registry *)
Section RegistryProperties.

Variables (now : Z) (delay : Duration).

Lemma clean_body_currentUID r uid :
  nodeRegistry.currentUID (nodeRegistry.clean_body now delay r uid)
  = nodeRegistry.currentUID r.
Proof.
  unfold nodeRegistry.clean_body. destruct (decide _); [done|].
  destruct (nodeRegistry.updates r !! uid); [|done]. by destruct (_ >? _).
Qed.

Lemma clean_body_other r uid other :
  other ≠ uid →
  nodeRegistry.nodes (nodeRegistry.clean_body now delay r uid) !! other
  = nodeRegistry.nodes r !! other
  ∧ nodeRegistry.updates (nodeRegistry.clean_body now delay r uid) !! other
    = nodeRegistry.updates r !! other.
Proof.
  intros Hne. unfold nodeRegistry.clean_body. destruct (decide _); [done|].
  destruct (nodeRegistry.updates r !! uid); simpl.
  - destruct (_ >? _); simpl; [|done]. by rewrite !lookup_delete_ne.
  - by rewrite lookup_delete_ne.
Qed.

Lemma clean_body_evicted r uid :
  evicted now delay r uid →
  nodeRegistry.nodes (nodeRegistry.clean_body now delay r uid) !! uid = None
  ∧ nodeRegistry.updates (nodeRegistry.clean_body now delay r uid) !! uid = None.
Proof.
  intros [Hne Hold]. unfold nodeRegistry.clean_body.
  destruct (decide _); [done|].
  destruct (nodeRegistry.updates r !! uid) as [t|] eqn:Ht; simpl.
  - specialize (Hold t eq_refl). apply Z.gt_lt, Z.gtb_lt in Hold. rewrite Hold. simpl.
    by rewrite !lookup_delete_eq.
  - by rewrite lookup_delete_eq.
Qed.

Lemma clean_body_kept r uid :
  ¬ evicted now delay r uid → nodeRegistry.clean_body now delay r uid = r.
Proof.
  intros Hkeep. unfold nodeRegistry.clean_body.
  destruct (decide _) as [|Hne]; [done|].
  destruct (nodeRegistry.updates r !! uid) as [t|] eqn:Ht.
  - destruct (_ >? _) eqn:Hcmp; [|done]. exfalso. apply Hkeep. split; [done|].
    intros updated Hu. rewrite Ht in Hu. injection Hu as <-.
    by apply Z.lt_gt, Z.gtb_lt.
  - exfalso. apply Hkeep. split; [done|]. intros updated Hu. by rewrite Ht in Hu.
Qed.

Lemma evicted_clean_body r uid other :
  evicted now delay (nodeRegistry.clean_body now delay r uid) other ↔ evicted now delay r other.
Proof.
  destruct (decide (evicted now delay r uid)) as [Hev|Hkeep].
  - unfold evicted. rewrite clean_body_currentUID.
    destruct (decide (other = uid)) as [->|Hne].
    + destruct (clean_body_evicted r uid Hev) as [_ ->]. destruct Hev as [? ?].
      split; [done|]. intros _. by split.
    + destruct (clean_body_other r uid other Hne) as [_ ->]. done.
  - by rewrite clean_body_kept.
Qed.

(** The loop over a list of keys, key by key. *)
Lemma clean_loop (keys : list string) (r : nodeRegistry.t) :
  let r' := foldl (nodeRegistry.clean_body now delay) r keys in
  nodeRegistry.currentUID r' = nodeRegistry.currentUID r
  ∧ ∀ uid,
      (uid ∈ keys ∧ evicted now delay r uid →
       nodeRegistry.nodes r' !! uid = None ∧ nodeRegistry.updates r' !! uid = None)
      ∧ (¬ (uid ∈ keys ∧ evicted now delay r uid) →
         nodeRegistry.nodes r' !! uid = nodeRegistry.nodes r !! uid
         ∧ nodeRegistry.updates r' !! uid = nodeRegistry.updates r !! uid).
Proof.
  revert r. induction keys as [|k keys IH]; intros r; simpl.
  - split; [done|]. intros uid. split; [|done]. intros [Hin _]. by apply elem_of_nil in Hin.
  - destruct (IH (nodeRegistry.clean_body now delay r k)) as [Hcur Hrest].
    split; [by rewrite Hcur, clean_body_currentUID|].
    intros uid. destruct (Hrest uid) as [Hgone Hsame].
    rewrite evicted_clean_body in Hgone, Hsame.
    destruct (decide (uid = k)) as [->|Hne].
    + destruct (decide (evicted now delay r k)) as [Hev|Hkeep].
      * split; [|intros Hno; exfalso; apply Hno; split; [apply elem_of_cons; by left|done]].
        intros _. destruct (decide (k ∈ keys)) as [Hin|Hout]; [by apply Hgone|].
        destruct Hsame as [-> ->]; [tauto|]. by apply clean_body_evicted.
      * split; [tauto|]. intros _. rewrite (clean_body_kept r k Hkeep) in Hsame |- *.
        apply Hsame. tauto.
    + destruct (clean_body_other r k uid Hne) as [Hn Hu]. rewrite Hn, Hu in Hsame.
      split.
      * intros [Hin Hev]. apply Hgone. split; [|done].
        apply elem_of_cons in Hin as [|]; [contradiction|done].
      * intros Hno. apply Hsame. intros [Hin Hev]. apply Hno. split; [|done].
        apply elem_of_cons. by right.
Qed.

(** [clean], record by record. *)
Lemma clean_lookup (r : nodeRegistry.t) (uid : string) :
  let r' := nodeRegistry.clean now delay r in
  (is_Some (nodeRegistry.nodes r !! uid) ∧ evicted now delay r uid →
   nodeRegistry.nodes r' !! uid = None ∧ nodeRegistry.updates r' !! uid = None)
  ∧ (¬ (is_Some (nodeRegistry.nodes r !! uid) ∧ evicted now delay r uid) →
     nodeRegistry.nodes r' !! uid = nodeRegistry.nodes r !! uid
     ∧ nodeRegistry.updates r' !! uid = nodeRegistry.updates r !! uid).
Proof.
  unfold nodeRegistry.clean.
  destruct (clean_loop (map_to_list (nodeRegistry.nodes r)).*1 r) as [_ Hloop].
  destruct (Hloop uid) as [Hgone Hsame].
  assert (Hkeys : uid ∈ (map_to_list (nodeRegistry.nodes r)).*1
                  ↔ is_Some (nodeRegistry.nodes r !! uid)).
  { rewrite list_elem_of_fmap. split.
    - intros [[k v] [-> Hin]]. apply elem_of_map_to_list in Hin. by eexists.
    - intros [v Hv]. exists (uid, v). split; [done|]. by apply elem_of_map_to_list. }
  rewrite Hkeys in Hgone, Hsame. by split.
Qed.

End RegistryProperties.

Lemma newNodeRegistry_wf (currentUID : string) :
  registry_wf (nodeRegistry.newNodeRegistry currentUID).
Proof. split; apply map_Forall_empty. Qed.

Lemma add_wf (now : Z) (info : controlproto.Node) (r : nodeRegistry.t) :
  timestamp_ok now → registry_wf r → registry_wf (nodeRegistry.add now info r).
Proof.
  intros Hnow [Hnodes Hupdates]. split; simpl.
  - intros uid node Hlookup. simpl in Hlookup |- *.
    destruct (decide (controlproto.Node_UID info = uid)) as [->|Hne].
    + rewrite lookup_insert_eq. by eexists.
    + rewrite lookup_insert_ne in Hlookup by done.
      rewrite lookup_insert_ne by done. by eapply Hnodes.
  - apply map_Forall_insert_2; done.
Qed.

Lemma clean_currentUID (now : Z) (delay : Duration) (r : nodeRegistry.t) :
  nodeRegistry.currentUID (nodeRegistry.clean now delay r) = nodeRegistry.currentUID r.
Proof. unfold nodeRegistry.clean. apply clean_loop. Qed.

Lemma clean_wf (now : Z) (delay : Duration) (r : nodeRegistry.t) :
  registry_wf r → registry_wf (nodeRegistry.clean now delay r).
Proof.
  intros [Hnodes Hupdates]. split.
  - intros uid node Hlookup.
    destruct (clean_lookup now delay r uid) as [Hgone Hsame].
    destruct (decide (is_Some (nodeRegistry.nodes r !! uid) ∧ evicted now delay r uid))
      as [Hev|Hkeep].
    + destruct (Hgone Hev) as [Hn _]. congruence.
    + destruct (Hsame Hkeep) as [Hn Hu]. rewrite Hu. rewrite Hn in Hlookup.
      by eapply Hnodes.
  - intros uid t Hlookup.
    destruct (clean_lookup now delay r uid) as [Hgone Hsame].
    destruct (decide (is_Some (nodeRegistry.nodes r !! uid) ∧ evicted now delay r uid))
      as [Hev|Hkeep].
    + destruct (Hgone Hev) as [_ Hu]. congruence.
    + destruct (Hsame Hkeep) as [_ Hu]. rewrite Hu in Hlookup. by eapply Hupdates.
Qed.

Lemma sub64_exact (a b : Z) : timestamp_ok a → timestamp_ok b → sub64 a b = a - b.
Proof.
  unfold timestamp_ok, sub64, wrap64. intros Ha Hb.
  rewrite Z.mod_small; lia.
Qed.

(** With whole-second clock values, "more than [delay] whole seconds
    ago" and "before [now − delay]" coincide. *)
Lemma older_than_delay (now lastSeen : Z) (delay : Duration) :
  timestamp_ok now → timestamp_ok lastSeen → 0 ≤ delay →
  sub64 now lastSeen > whole_seconds delay ↔ lastSeen * Second < now * Second - delay.
Proof.
  intros Hnow Hseen Hdelay. rewrite sub64_exact by done.
  unfold whole_seconds. rewrite Z.quot_div_nonneg by (unfold Second; lia).
  pose proof (Z.div_mod delay Second) as Hdiv.
  pose proof (Z.mod_pos_bound delay Second) as Hmod.
  unfold Second in *. nia.
Qed.

(** C7. [clean(delay)] removes exactly the peer records last seen before
    [now − delay]: such a record and its timestamp are deleted, a peer
    seen within the window is left as it was, the record of the
    registry's own uid is left however old it is, and no record
    appears.  The delay lies in the range where [whole_seconds] is what
    the floating-point conversion gives. *)
Theorem clean_removes_exactly_stale_peers
    (now : Z) (delay : Duration) (r : nodeRegistry.t) :
  0 ≤ delay < 2 ^ 24 * Second → timestamp_ok now → registry_wf r →
  let r' := nodeRegistry.clean now delay r in
  nodeRegistry.currentUID r' = nodeRegistry.currentUID r
  ∧ ∀ uid,
      (uid = nodeRegistry.currentUID r →
       nodeRegistry.nodes r' !! uid = nodeRegistry.nodes r !! uid
       ∧ nodeRegistry.updates r' !! uid = nodeRegistry.updates r !! uid)
      ∧ (nodeRegistry.nodes r !! uid = None → nodeRegistry.nodes r' !! uid = None)
      ∧ ∀ info, uid ≠ nodeRegistry.currentUID r →
          nodeRegistry.nodes r !! uid = Some info →
          ∃ lastSeen,
            nodeRegistry.updates r !! uid = Some lastSeen
            ∧ (lastSeen * Second < now * Second - delay →
               nodeRegistry.nodes r' !! uid = None
               ∧ nodeRegistry.updates r' !! uid = None)
            ∧ (now * Second - delay ≤ lastSeen * Second →
               nodeRegistry.nodes r' !! uid = Some info
               ∧ nodeRegistry.updates r' !! uid = Some lastSeen).
Proof.
  intros [Hdelay _] Hnow [Hnodes Hupdates] r'. subst r'.
  split; [apply clean_currentUID|]. intros uid.
  destruct (clean_lookup now delay r uid) as [Hgone Hsame].
  split; [|split].
  - intros Hself. apply Hsame. intros [_ [Hne _]]. contradiction.
  - intros Habsent. rewrite <- Habsent. apply Hsame. intros [[? Hsome] _]. congruence.
  - intros info Hpeer Hinfo.
    destruct (Hnodes uid info Hinfo) as [lastSeen Hseen]. exists lastSeen.
    split; [done|].
    pose proof (Hupdates uid lastSeen Hseen) as Hrange.
    pose proof (older_than_delay now lastSeen delay Hnow Hrange Hdelay) as Hold.
    split.
    + intros Hstale. apply Hgone. split; [by eexists|]. split; [done|].
      intros updated Hu. rewrite Hseen in Hu. injection Hu as <-. by apply Hold.
    + intros Hrecent. rewrite <- Hinfo, <- Hseen. apply Hsame.
      intros [_ [_ Hev]]. specialize (Hev lastSeen Hseen). apply Hold in Hev. lia.
Qed.

(** ** Facts about the Go string functions

    Occurrences of a separator are described by decompositions
    [s = u +:+ sep +:+ v]: the separator occurs at offset [len u]. *)
Section StringFacts.

Lemma string_app_nil_l (s : string) : "" +:+ s = s.
Proof. reflexivity. Qed.

Lemma string_app_cons (c : ascii) (s t : string) : String c s +:+ t = String c (s +:+ t).
Proof. reflexivity. Qed.

Lemma string_app_nil_r (s : string) : s +:+ "" = s.
Proof. induction s as [|c s IH]; [done|]. by rewrite string_app_cons, IH. Qed.

Lemma string_app_assoc (s t u : string) : (s +:+ t) +:+ u = s +:+ t +:+ u.
Proof. induction s as [|c s IH]; [done|]. by rewrite !string_app_cons, IH. Qed.

Lemma len_app (s t : string) : len (s +:+ t) = (len s + len t)%nat.
Proof. induction s as [|c s IH]; [done|]. rewrite string_app_cons. simpl. by rewrite IH. Qed.

Lemma len_zero (s : string) : len s = 0%nat → s = "".
Proof. by destruct s. Qed.

Lemma slice_to_app (s t : string) : slice_to (len s) (s +:+ t) = s.
Proof. induction s as [|c s IH]; [by destruct t|]. rewrite string_app_cons. simpl. by rewrite IH. Qed.

Lemma slice_from_app (s t : string) : slice_from (len s) (s +:+ t) = t.
Proof. induction s as [|c s IH]; [by destruct t|]. by rewrite string_app_cons. Qed.

(** Two decompositions of one string: the shorter head is a prefix of
    the longer one. *)
Lemma string_app_split (u x u' x' : string) :
  u +:+ x = u' +:+ x' → (len u ≤ len u')%nat → ∃ d, u' = u +:+ d ∧ x = d +:+ x'.
Proof.
  revert u'. induction u as [|c u IH]; intros u' Heq Hlen.
  - rewrite string_app_nil_l in Heq. by exists u'.
  - destruct u' as [|c' u']; [simpl in Hlen; lia|].
    rewrite !string_app_cons in Heq. injection Heq as -> Heq.
    destruct (IH u' Heq) as (d & -> & ->); [simpl in Hlen; lia|].
    by exists d.
Qed.

Lemma string_app_inj_len (u x u' x' : string) :
  u +:+ x = u' +:+ x' → len u = len u' → u = u' ∧ x = x'.
Proof.
  intros Heq Hlen. destruct (string_app_split u x u' x' Heq) as (d & -> & ->); [lia|].
  rewrite len_app in Hlen. assert (d = "") as -> by (apply len_zero; lia).
  by rewrite string_app_nil_r.
Qed.

Lemma HasPrefix_app (p r : string) : HasPrefix (p +:+ r) p = true.
Proof.
  induction p as [|c p IH]; [done|]. rewrite string_app_cons. simpl.
  by rewrite Ascii.eqb_refl.
Qed.

Lemma HasPrefix_true (s p : string) : HasPrefix s p = true → s = p +:+ slice_from (len p) s.
Proof.
  revert s. induction p as [|c p IH]; intros s Hp; [done|].
  destruct s as [|c' s]; [done|]. simpl in Hp.
  destruct (Ascii.eqb c c') eqn:Hc; [|done]. apply Ascii.eqb_eq in Hc as ->.
  rewrite string_app_cons. simpl. f_equal. by apply IH.
Qed.

Lemma HasPrefix_iff (s p : string) : HasPrefix s p = true ↔ ∃ r, s = p +:+ r.
Proof.
  split.
  - intros Hp. eexists. by apply HasPrefix_true.
  - intros [r ->]. apply HasPrefix_app.
Qed.

(** [TrimPrefix] strips the prefix if it is there and only then. *)
Lemma TrimPrefix_present (prefix rest : string) : TrimPrefix (prefix +:+ rest) prefix = rest.
Proof. unfold TrimPrefix. by rewrite HasPrefix_app, slice_from_app. Qed.

Lemma TrimPrefix_absent (s prefix : string) :
  (∀ r, s ≠ prefix +:+ r) → TrimPrefix s prefix = s.
Proof.
  intros Hno. unfold TrimPrefix. destruct (HasPrefix s prefix) eqn:Hp; [|done].
  apply HasPrefix_iff in Hp as [r ->]. by destruct (Hno r).
Qed.

(** [Index] finds the leftmost occurrence. *)
Lemma Index_Some (s sep : string) (m : nat) :
  Index s sep = Some m →
  ∃ u v, s = u +:+ sep +:+ v ∧ len u = m ∧ slice_to m s = u ∧ slice_from (m + len sep) s = v
         ∧ ∀ u' v', s = u' +:+ sep +:+ v' → (m ≤ len u')%nat.
Proof.
  revert m. induction s as [|c s IH]; intros m; simpl.
  - destruct (HasPrefix "" sep) eqn:Hp; [|done]. intros [= <-].
    exists "", (slice_from (len sep) ""). repeat split; [by apply HasPrefix_true|lia].
  - destruct (HasPrefix (String c s) sep) eqn:Hp.
    + intros [= <-]. exists "", (slice_from (len sep) (String c s)).
      repeat split; [by apply HasPrefix_true|lia].
    + destruct (Index s sep) as [m'|] eqn:Hidx; [|done]. simpl. intros [= <-].
      destruct (IH m' eq_refl) as (u & v & Hs & Hlen & Htake & Hdrop & Hmin).
      exists (String c u), v. rewrite string_app_cons. simpl.
      repeat split; [by f_equal|by f_equal|by f_equal|done|].
      intros u' v' Heq. destruct u' as [|c' u'].
      * rewrite string_app_nil_l in Heq. rewrite Heq, HasPrefix_app in Hp. done.
      * rewrite string_app_cons in Heq. injection Heq as -> Heq. simpl.
        specialize (Hmin _ _ Heq). lia.
Qed.

Lemma Index_None (s sep u v : string) : Index s sep = None → s ≠ u +:+ sep +:+ v.
Proof.
  revert u. induction s as [|c s IH]; intros u; simpl.
  - destruct (HasPrefix "" sep) eqn:Hp; [done|]. intros _ Heq.
    destruct u; [|done]. rewrite string_app_nil_l in Heq. by rewrite Heq, HasPrefix_app in Hp.
  - destruct (HasPrefix (String c s) sep) eqn:Hp; [done|].
    destruct (Index s sep) eqn:Hidx; [done|]. intros _ Heq.
    destruct u as [|c' u].
    + rewrite string_app_nil_l in Heq. by rewrite Heq, HasPrefix_app in Hp.
    + rewrite string_app_cons in Heq. injection Heq as -> Heq. by eapply IH.
Qed.

Lemma Contains_true (s sep : string) :
  Contains s sep = true ↔ ∃ u v, s = u +:+ sep +:+ v.
Proof.
  unfold Contains. destruct (Index s sep) as [m|] eqn:Hidx.
  - split; [intros _|done].
    destruct (Index_Some s sep m Hidx) as (u & v & Hs & _). by exists u, v.
  - split; [done|]. intros (u & v & Hs). by destruct (Index_None s sep u v Hidx).
Qed.

End StringFacts.

(** ** Properties of the channel grammar *)
Section ChannelGrammar.

Context {Namespaces : Type}.
Implicit Types (c : Config Namespaces) (ch rest user : string).

Lemma stripped_TrimPrefix (prefix ch rest : string) :
  stripped prefix ch rest → TrimPrefix ch prefix = rest.
Proof.
  intros [->|[Hno ->]]; [apply TrimPrefix_present | by apply TrimPrefix_absent].
Qed.

Lemma before_first_Index (sep s head : string) :
  before_first sep s head → Index s sep = Some (len head) ∧ slice_to (len head) s = head.
Proof.
  intros [[tail Hs] Hmin].
  destruct (Index s sep) as [m|] eqn:Hidx; [|by destruct (Index_None s sep head tail Hidx)].
  destruct (Index_Some s sep m Hidx) as (u & v & Hs' & Hlen & Htake & _ & Hmin').
  pose proof (Hmin u v Hs'). pose proof (Hmin' head tail Hs).
  assert (m = len head) as -> by lia. split; [done|].
  rewrite Htake. rewrite Hs in Hs'.
  by destruct (string_app_inj_len _ _ _ _ Hs' (eq_sym Hlen)).
Qed.

Lemma Index_before_first (sep s : string) (m : nat) :
  Index s sep = Some m → before_first sep s (slice_to m s).
Proof.
  intros Hidx. destruct (Index_Some s sep m Hidx) as (u & v & Hs & Hlen & Htake & _ & Hmin).
  rewrite Htake. split; [by exists v|]. intros u' v' Hs'. rewrite Hlen. by eapply Hmin.
Qed.

(** [SplitN(s, sep, 2)] cuts at the leftmost separator. *)
Lemma SplitN_2 (s sep : string) (m : nat) :
  sep ≠ "" → Index s sep = Some m →
  SplitN s sep 2 = [slice_to m s; slice_from (m + len sep) s].
Proof.
  intros Hsep Hidx. unfold SplitN, genSplit. simpl.
  destruct (decide (sep = "")) as [|_]; [done|].
  destruct (Index_Some s sep m Hidx) as (u & v & Hs & _).
  assert (1 ≤ len s)%nat as Hlen.
  { rewrite Hs, !len_app. destruct sep; [done|]. simpl. lia. }
  destruct (2 >? Z.of_nat (len s) + 1) eqn:Hclamp; [lia|].
  simpl. rewrite Hidx. by rewrite Nat.add_0_r.
Qed.

(** C6, as the code has it.  For a non-empty [ChannelNamespaceBoundary]:
    with the private prefix stripped from the front of [ch] if present,
    [namespaceName] is the part of the remainder before the leftmost
    occurrence of the boundary, and the empty string when the remainder
    does not contain the boundary; it always returns. *)
Theorem namespaceName_before_first_boundary c ch rest :
  ChannelNamespaceBoundary c ≠ "" →
  stripped (ChannelPrivatePrefix c) ch rest →
  (∀ ns, before_first (ChannelNamespaceBoundary c) rest ns → namespaceName c ch = Some ns)
  ∧ ((∀ u v, rest ≠ u +:+ ChannelNamespaceBoundary c +:+ v) → namespaceName c ch = Some "")
  ∧ ∃ ns, namespaceName c ch = Some ns.
Proof.
  intros Hsep Hrest. unfold namespaceName.
  rewrite (stripped_TrimPrefix _ _ _ Hrest). unfold Contains.
  destruct (Index rest (ChannelNamespaceBoundary c)) as [m|] eqn:Hidx.
  - rewrite (SplitN_2 _ _ m Hsep Hidx). simpl. split; [|split].
    + intros ns Hns. destruct (before_first_Index _ _ _ Hns) as [Hm Htake].
      rewrite Hidx in Hm. injection Hm as ->. by rewrite Htake.
    + intros Hno. destruct (Index_Some _ _ _ Hidx) as (u & v & Hs & _).
      by destruct (Hno u v).
    + by eexists.
  - split; [|split].
    + intros ns [[tail Hs] _]. by destruct (Index_None _ _ ns tail Hidx).
    + done.
    + by eexists.
Qed.

Lemma no_overlap_single (a : ascii) (s : string) : no_overlap (String a "") s.
Proof. intros u v u' v' _ _ Hlt. simpl. lia. Qed.

Lemma len_pos (s : string) : s ≠ "" → (1 ≤ len s)%nat.
Proof. destruct s; [done|]. simpl. lia. Qed.

Lemma genSplit_loop_last (k : nat) (s sep : string) (sepSave : nat) :
  is_Some (last (genSplit_loop k s sep sepSave)).
Proof.
  revert s. induction k as [|k IH]; intros s; simpl; [by eexists|].
  destruct (Index s sep); [|by eexists].
  rewrite last_cons. destruct (IH (slice_from (n + len sep) s)) as [x ->]. by eexists.
Qed.

Lemma Count_loop_le (fuel : nat) (s sep : string) : (Count_loop fuel s sep ≤ fuel)%nat.
Proof.
  revert s. induction fuel as [|fuel IH]; intros s; simpl; [lia|].
  destruct (Index s sep); [|lia]. specialize (IH (slice_from (n + len sep) s)). lia.
Qed.

(** [Split] on a non-empty separator: one round of the loop per
    counted match. *)
Lemma Split_loop (s sep : string) :
  sep ≠ "" → Split s sep = genSplit_loop (Count_loop (len s) s sep) s sep 0.
Proof.
  intros Hsep. unfold Split, genSplit, Count. simpl.
  destruct (decide (sep = "")) as [|_]; [done|].
  pose proof (Count_loop_le (len s) s sep) as Hle.
  destruct (_ >? _) eqn:Hclamp; [lia|]. f_equal. lia.
Qed.

(** The last part of the loop's result, when occurrences of the
    separator do not overlap: the text after the rightmost one. *)
Lemma genSplit_loop_after_last (sep : string) (fuel : nat) (s : string) :
  sep ≠ "" → (len s ≤ fuel)%nat → no_overlap sep s →
  let parts := genSplit_loop (Count_loop fuel s sep) s sep 0 in
  ((∀ u v, s ≠ u +:+ sep +:+ v) → last parts = Some s)
  ∧ (∀ seg, after_last sep s seg → last parts = Some seg).
Proof.
  intros Hsep. pose proof (len_pos sep Hsep) as Hpos.
  revert s. induction fuel as [|fuel IH]; intros s Hfuel Hover; simpl.
  - split; [done|]. intros seg (head & Hs & _).
    rewrite Hs, !len_app in Hfuel. lia.
  - destruct (Index s sep) as [m|] eqn:Hidx; simpl.
    2:{ split; [done|]. intros seg (head & Hs & _).
        by destruct (Index_None s sep head seg Hidx). }
    rewrite Hidx.
    destruct (Index_Some s sep m Hidx) as (u & v & Hs & Hlen & _ & Hdrop & Hmin).
    rewrite Hdrop.
    assert (len v ≤ fuel)%nat as Hfuel'.
    { rewrite Hs, !len_app in Hfuel. lia. }
    assert (∀ a b, v = a +:+ sep +:+ b → s = (u +:+ sep +:+ a) +:+ sep +:+ b) as Hlift.
    { intros a b ->. by rewrite Hs, !string_app_assoc. }
    assert (no_overlap sep v) as Hover'.
    { intros a b a' b' Ha Ha' Hlt.
      pose proof (Hover _ _ _ _ (Hlift _ _ Ha) (Hlift _ _ Ha')) as Hgap.
      rewrite !len_app in Hgap. lia. }
    destruct (IH v Hfuel' Hover') as [IHnone IHsome].
    rewrite last_cons.
    destruct (genSplit_loop_last (Count_loop fuel v sep) v sep 0) as [x Hx].
    rewrite Hx in IHnone, IHsome |- *.
    split.
    + intros Hno. by destruct (Hno u v).
    + intros seg (head & Hseg & Hmax).
      pose proof (Hmin head seg Hseg) as Hle.
      destruct (decide (len head = m)) as [Heq|Hne].
      * assert (v = seg) as <-.
        { rewrite Hs in Hseg. destruct (string_app_inj_len _ _ _ _ Hseg) as [_ Hv]; [lia|].
          by destruct (string_app_inj_len _ _ _ _ Hv eq_refl). }
        apply IHnone. intros a b Hv.
        pose proof (Hmax _ _ (Hlift _ _ Hv)) as Hbad. rewrite !len_app in Hbad. lia.
      * pose proof (Hover u v head seg Hs Hseg) as Hgap.
        assert (len (u +:+ sep) ≤ len head)%nat as Hfit by (rewrite len_app; lia).
        assert ((u +:+ sep) +:+ v = head +:+ sep +:+ seg) as Hboth
            by (by rewrite string_app_assoc, <- Hs).
        destruct (string_app_split _ _ _ _ Hboth Hfit) as (d & Hhead & Hv).
        apply IHsome. exists d. split; [done|].
        intros a b Ha. pose proof (Hmax _ _ (Hlift _ _ Ha)) as Hbound.
        rewrite Hhead, !len_app in Hbound. lia.
Qed.

Lemma at_index_last {A} (l : list A) : at_index l (Z.of_nat (length l) - 1) = last l.
Proof.
  unfold at_index. rewrite last_lookup. destruct l as [|x l]; [done|].
  simpl length. destruct (Z.ltb_spec (Z.of_nat (S (length l)) - 1) 0) as [Hneg|_]; [lia|].
  f_equal. lia.
Qed.

Lemma userAllowed_range_elem (user : string) (allowedUsers : list string) :
  userAllowed_range user allowedUsers = bool_decide (user ∈ allowedUsers).
Proof.
  induction allowedUsers as [|a rest IH]; cbn [userAllowed_range].
  - symmetry. apply bool_decide_eq_false_2. apply not_elem_of_nil.
  - destruct (decide (user = a)) as [->|Hne].
    + symmetry. apply bool_decide_eq_true_2. apply elem_of_cons. by left.
    + rewrite IH. apply bool_decide_ext. rewrite elem_of_cons.
      split; [tauto|]. intros [?|?]; [contradiction|done].
Qed.

(** C5, as the code has it.  For a non-empty [ChannelUserBoundary]
    whose occurrences in [ch] do not overlap: a channel without the
    boundary admits every user; otherwise the text after the rightmost
    boundary, split on [ChannelUserSeparator], is the list of allowed
    user ids, and the user is admitted iff it is one of them.  The
    function always returns. *)
Theorem userAllowed_after_last_boundary c ch user :
  ChannelUserBoundary c ≠ "" →
  no_overlap (ChannelUserBoundary c) ch →
  ((∀ u v, ch ≠ u +:+ ChannelUserBoundary c +:+ v) → userAllowed c ch user = Some true)
  ∧ (∀ seg, after_last (ChannelUserBoundary c) ch seg →
       userAllowed c ch user
       = Some (bool_decide (user ∈ Split seg (ChannelUserSeparator c))))
  ∧ ∃ allowed, userAllowed c ch user = Some allowed.
Proof.
  intros Hsep Hover. unfold userAllowed.
  destruct (Contains ch (ChannelUserBoundary c)) eqn:Hcontains; simpl.
  - apply Contains_true in Hcontains as (u0 & v0 & Hch).
    rewrite at_index_last, (Split_loop _ _ Hsep).
    destruct (genSplit_loop_after_last _ (len ch) ch Hsep (le_n _) Hover) as [_ Hlast].
    destruct (genSplit_loop_last (Count_loop (len ch) ch (ChannelUserBoundary c)) ch
                (ChannelUserBoundary c) 0) as [x Hx].
    rewrite Hx in Hlast |- *. split; [|split].
    + intros Hno. by destruct (Hno u0 v0).
    + intros seg Hseg. specialize (Hlast seg Hseg). injection Hlast as ->.
      by rewrite userAllowed_range_elem.
    + by eexists.
  - split; [done|]. split; [|by eexists].
    intros seg (head & Hch & _).
    assert (Contains ch (ChannelUserBoundary c) = true) as Hyes
        by (apply Contains_true; by exists head, seg).
    congruence.
Qed.

End ChannelGrammar.

(** ** Namespace resolution returns

    With a non-empty namespace boundary [namespaceName] never indexes
    out of range, so [ChannelOpts] returns and the cases of
    [Unsubscribe] and [publish] above are all there is. *)
Section Resolution.

Context {Namespaces ChannelOptions Hub Engine Nuid : Type}.
Context `{!ConfigAPI Namespaces ChannelOptions}.

Lemma namespaceName_returns (c : Config Namespaces) (ch : string) :
  ChannelNamespaceBoundary c ≠ "" → is_Some (namespaceName c ch).
Proof.
  intros Hsep. unfold namespaceName, Contains.
  destruct (Index _ _) as [m|] eqn:Hidx; [|by eexists].
  rewrite (SplitN_2 _ _ m Hsep Hidx). by eexists.
Qed.

Lemma ChannelOpts_returns (ch : string)
    (w : @World Namespaces ChannelOptions Hub Engine Nuid) :
  ChannelNamespaceBoundary (config (node w)) ≠ "" →
  ∃ opts : option ChannelOptions, ChannelOpts ch w = Done opts w.
Proof.
  intros Hsep. unfold ChannelOpts, or_panic, mbind, M_bind, get. simpl.
  destruct (namespaceName_returns (config (node w)) ch Hsep) as [ns ->].
  by eexists.
Qed.

End Resolution.

(** ** The contract of [Unsubscribe] *)
Section UnsubscribeContract.

Context {Namespaces ChannelOptions Hub Engine Nuid : Type}.
Context `{!ConfigAPI Namespaces ChannelOptions} `{!HubAPI Hub}
        `{!EngineAPI ChannelOptions Engine} `{!ControlCodec} `{!MessageCodec}
        `{!NuidAPI Nuid}.

Abbreviation World := (@World Namespaces ChannelOptions Hub Engine Nuid).

(** With a non-empty boundary [ChannelOpts] returns the options of the
    channel's namespace. *)
Lemma ChannelOpts_resolved (ch : string) (w : World) :
  ChannelNamespaceBoundary (config (node w)) ≠ "" →
  ∃ ns, namespaceName (config (node w)) ch = Some ns
        ∧ ChannelOpts ch w = Done (channelOpts (config (node w)) ns) w.
Proof.
  intros Hsep.
  destruct (namespaceName_returns (config (node w)) ch Hsep) as [ns Hns].
  exists ns. split; [exact Hns|].
  unfold ChannelOpts, or_panic, mbind, M_bind, get. simpl. by rewrite Hns.
Qed.

(** C2, as the code has it.  With a non-empty [ChannelNamespaceBoundary]
    the channel has a namespace [ns] and [Unsubscribe(user, ch)] always
    returns, in one of these ways, which cover every input: an empty
    user gives [BadRequest] and nothing happens; else a non-empty
    channel whose namespace is not in the configuration gives
    [NamespaceNotFound] and nothing happens; else [hub.unsubscribe] runs
    first.  If it fails the result is [InternalServerError] and nothing
    is published; if it succeeds the unsubscribe control command is
    published, a failure of which gives [InternalServerError] with the
    hub left as the local step made it. *)
Theorem Unsubscribe_contract_nonempty_boundary (user ch : string) (w : World) :
  ChannelNamespaceBoundary (config (node w)) ≠ "" →
  ∃ ns,
    namespaceName (config (node w)) ch = Some ns
    ∧ (user = "" → Unsubscribe user ch w = Done (Some ErrBadRequest) w)
    ∧ (user ≠ "" → ch ≠ "" → channelOpts (config (node w)) ns = None →
       Unsubscribe user ch w = Done (Some ErrNamespaceNotFound) w)
    ∧ (user ≠ "" → (ch = "" ∨ is_Some (channelOpts (config (node w)) ns)) →
       let local := hub_unsubscribe user ch (hub (node w)) in
       let cmd := unsubscribe_command w user ch in
       let remote := engine_publishControl cmd (engine (node w)) in
       (is_Some local.1 →
        ∃ w', Unsubscribe user ch w = Done (Some ErrInternalServerError) w'
              ∧ calls w' = calls w ++ [CallHubUnsubscribe user ch]
              ∧ hub (node w') = local.2
              ∧ engine (node w') = engine (node w)
              ∧ messagesSentCount w' = messagesSentCount w)
       ∧ (local.1 = None →
          ∃ w', Unsubscribe user ch w
                = Done (match remote.1 with
                        | Some _ => Some ErrInternalServerError
                        | None => None
                        end) w'
                ∧ calls w' = calls w ++ [CallHubUnsubscribe user ch;
                                         CallEnginePublishControl cmd]
                ∧ hub (node w') = local.2
                ∧ engine (node w') = remote.2)).
Proof.
  intros Hsep.
  destruct (ChannelOpts_resolved ch w Hsep) as (ns & Hns & Hopts).
  destruct (Unsubscribe_cases user ch w) as (Hbad & Hnone & Hsteps).
  exists ns. split; [exact Hns|]. split; [exact Hbad|]. split.
  - intros Huser Hch Hcfg. apply Hnone; [done|done|]. by rewrite Hopts, Hcfg.
  - intros Huser Hch. apply Hsteps; [done|].
    destruct Hch as [->|[opts Hcfg]]; [by left|].
    right. exists opts. by rewrite Hopts, Hcfg.
Qed.

End UnsubscribeContract.

(** ** The NUID generator and the publish pipeline *)
Section NuidFacts.

Import nuid.









End NuidFacts.

Section PublishPipeline.

Context {Namespaces ChannelOptions Hub Engine : Type}.
Context `{!ConfigAPI Namespaces ChannelOptions} `{!HubAPI Hub}
        `{!EngineAPI ChannelOptions Engine} `{!ControlCodec} `{!MessageCodec}.

Abbreviation World := (@World Namespaces ChannelOptions Hub Engine nuid.NUID).


End PublishPipeline.

(** ** Concrete runs

    The theorems applied to the test doubles, and the inputs on which
    the specification's wording and the code part ways. *)
Import TestDoubles.

Example handleControl_self_run :
  observe (λ r w', (r, hub (node w'), calls w',
                    counter (messagesReceivedCount w') "control"))
    (handleControl self_disconnect w0)
  = Some (None, hub0, [], 1%nat).
Proof. by vm_compute. Qed.

Example handleControl_peer_run :
  observe (λ r w', (r, subscriptions (hub (node w')), calls w'))
    (handleControl peer_disconnect w0)
  = Some (None, [("u2", "chat:lobby")], [CallHubDisconnect "u1" false]).
Proof. by vm_compute. Qed.

Lemma handleControl_self_suppression_witness :
  "n1" = uid (node w0)
  ∧ ∃ w' : TWorld,
      handleControl
        (controlproto.mkCommand "n1" controlproto.MethodTypeDisconnect
           (String.list_byte_of_string "u1")) w0 = Done None w'
      ∧ nodes (node w') = nodes (node w0)
      ∧ hub (node w') = hub (node w0)
      ∧ node w' = node w0
      ∧ calls w' = calls w0
      ∧ logged w' = logged w0.
Proof.
  split; [reflexivity|].
  apply (handleControl_self_suppression "n1" controlproto.MethodTypeDisconnect
           (String.list_byte_of_string "u1") w0).
  reflexivity.
Defined.

Lemma handleControl_counts_before_self_check_witness :
  (∃ r (w' : TWorld), handleControl self_disconnect w0 = Done r w'
     ∧ counter (messagesReceivedCount w') "control"
       = S (counter (messagesReceivedCount w0) "control")
     ∧ ∀ label, label ≠ "control" →
         counter (messagesReceivedCount w') label
         = counter (messagesReceivedCount w0) label)
  ∧ (controlproto.Command_UID self_disconnect = uid (node w0) →
     handleControl self_disconnect w0
     = Done None (set_messagesReceivedCount
                    (<["control" := S (counter (messagesReceivedCount w0) "control")]>
                       (messagesReceivedCount w0)) w0)).
Proof. exact (handleControl_counts_before_self_check self_disconnect w0). Defined.

Example Unsubscribe_run :
  observe (λ r w', (r, subscriptions (hub (node w')), control_sent (engine (node w'))))
    (Unsubscribe "u1" "chat:lobby" w0)
  = Some (None, [("u2", "chat:lobby"); ("u1", "news")],
          [controlproto.mkCommand "n1" controlproto.MethodTypeUnsubscribe
             (String.list_byte_of_string "u1")]).
Proof. by vm_compute. Qed.

Example Unsubscribe_broadcast_fails_run :
  observe (λ r w', (r, subscriptions (hub (node w'))))
    (Unsubscribe "u1" "chat:lobby" w_engine_broken)
  = Some (Some ErrInternalServerError, [("u2", "chat:lobby"); ("u1", "news")]).
Proof. by vm_compute. Qed.

Example Unsubscribe_empty_boundary_panics :
  observe (λ r _, r) (Unsubscribe "u1" "$" w_empty_boundary) = None.
Proof. by vm_compute. Qed.

Example Unsubscribe_cases_run :
  Unsubscribe "" "chat:lobby" w0 = Done (Some ErrBadRequest) w0
  ∧ Unsubscribe "u1" "zzz:lobby" w0 = Done (Some ErrNamespaceNotFound) w0
  ∧ (∃ w' : TWorld,
       Unsubscribe "u1" "chat:lobby" w_hub_broken = Done (Some ErrInternalServerError) w'
       ∧ calls w' = calls w_hub_broken ++ [CallHubUnsubscribe "u1" "chat:lobby"]
       ∧ hub (node w') = (hub_unsubscribe "u1" "chat:lobby" (hub (node w_hub_broken))).2
       ∧ engine (node w') = engine (node w_hub_broken)
       ∧ messagesSentCount w' = messagesSentCount w_hub_broken)
  ∧ (∃ w' : TWorld,
       Unsubscribe "u1" "chat:lobby" w_engine_broken
       = Done (match (engine_publishControl
                        (unsubscribe_command w_engine_broken "u1" "chat:lobby")
                        (engine (node w_engine_broken))).1 with
               | Some _ => Some ErrInternalServerError
               | None => None
               end) w'
       ∧ calls w'
         = calls w_engine_broken
           ++ [CallHubUnsubscribe "u1" "chat:lobby";
               CallEnginePublishControl
                 (unsubscribe_command w_engine_broken "u1" "chat:lobby")]
       ∧ hub (node w') = (hub_unsubscribe "u1" "chat:lobby" (hub (node w_engine_broken))).2
       ∧ engine (node w')
         = (engine_publishControl (unsubscribe_command w_engine_broken "u1" "chat:lobby")
              (engine (node w_engine_broken))).2).
Proof.
  split; [|split; [|split]].
  - apply (Unsubscribe_cases "" "chat:lobby" w0). reflexivity.
  - apply (Unsubscribe_cases "u1" "zzz:lobby" w0); [done|done|]. vm_compute. reflexivity.
  - apply (Unsubscribe_cases "u1" "chat:lobby" w_hub_broken); [done| |].
    + right. exists 10%nat. vm_compute. reflexivity.
    + vm_compute. eexists. reflexivity.
  - apply (Unsubscribe_cases "u1" "chat:lobby" w_engine_broken); [done| |].
    + right. exists 10%nat. vm_compute. reflexivity.
    + vm_compute. reflexivity.
Qed.

(** C2 as the specification words it fails: with the zero value of
    [ChannelNamespaceBoundary] and a channel that is just the private
    prefix, [Unsubscribe] returns none of its results; [namespaceName]
    indexes an empty slice and the call panics. *)
Lemma Unsubscribe_empty_boundary_no_result :
  "u1" ≠ ""
  ∧ "$" ≠ ""
  ∧ ChannelNamespaceBoundary (config (node w_empty_boundary)) = ""
  ∧ ¬ ∃ (r : option error) (w' : TWorld),
        Unsubscribe "u1" "$" w_empty_boundary = Done r w'.
Proof.
  split; [discriminate|]. split; [discriminate|]. split; [reflexivity|].
  intros (r & w' & Hrun). vm_compute in Hrun. discriminate.
Qed.

Lemma Unsubscribe_contract_nonempty_boundary_witness :
  ChannelNamespaceBoundary (config (node w0)) ≠ ""
  ∧ ∃ ns,
      namespaceName (config (node w0)) "chat:lobby" = Some ns
      ∧ ("u1" = "" → Unsubscribe "u1" "chat:lobby" w0 = Done (Some ErrBadRequest) w0)
      ∧ ("u1" ≠ "" → "chat:lobby" ≠ "" → channelOpts (config (node w0)) ns = None →
         Unsubscribe "u1" "chat:lobby" w0 = Done (Some ErrNamespaceNotFound) w0)
      ∧ ("u1" ≠ "" → ("chat:lobby" = "" ∨ is_Some (channelOpts (config (node w0)) ns)) →
         let local := hub_unsubscribe "u1" "chat:lobby" (hub (node w0)) in
         let cmd := unsubscribe_command w0 "u1" "chat:lobby" in
         let remote := engine_publishControl cmd (engine (node w0)) in
         (is_Some local.1 →
          ∃ w' : TWorld,
            Unsubscribe "u1" "chat:lobby" w0 = Done (Some ErrInternalServerError) w'
            ∧ calls w' = calls w0 ++ [CallHubUnsubscribe "u1" "chat:lobby"]
            ∧ hub (node w') = local.2
            ∧ engine (node w') = engine (node w0)
            ∧ messagesSentCount w' = messagesSentCount w0)
         ∧ (local.1 = None →
            ∃ w' : TWorld,
              Unsubscribe "u1" "chat:lobby" w0
              = Done (match remote.1 with
                      | Some _ => Some ErrInternalServerError
                      | None => None
                      end) w'
              ∧ calls w' = calls w0 ++ [CallHubUnsubscribe "u1" "chat:lobby";
                                        CallEnginePublishControl cmd]
              ∧ hub (node w') = local.2
              ∧ engine (node w') = remote.2)).
Proof.
  assert (Hsep : ChannelNamespaceBoundary (config (node w0)) ≠ "") by discriminate.
  split; [exact Hsep|].
  exact (Unsubscribe_contract_nonempty_boundary "u1" "chat:lobby" w0 Hsep).
Defined.

Lemma test_codec_roundtrip (d : controlproto.Disconnect) :
  DecodeDisconnect (EncodeDisconnect d).1 = inl d.
Proof.
  destruct d as [user]. simpl. by rewrite String.string_of_list_byte_of_string.
Qed.

Lemma disconnect_broadcast_drops_reconnect_witness :
  pubDisconnect "u1" true w0 = pubDisconnect "u1" false w0
  ∧ (∃ r (peer' : TWorld),
       handleControl (disconnect_command w0 "u1") w_peer = Done r peer'
       ∧ calls peer' = calls w_peer ++ [CallHubDisconnect "u1" false]).
Proof.
  destruct (disconnect_broadcast_drops_reconnect "u1" true w0 w_peer)
    as (Hsame & _ & _ & Hpeer).
  split; [exact Hsame|]. apply Hpeer; [done|]. apply test_codec_roundtrip.
Defined.

Example Shutdown_twice_run :
  observe (λ _ w1, (calls w1, observe (λ r w2, (r, calls w2)) (Shutdown w1))) (Shutdown w0)
  = Some ([CallCloseShutdownCh; CallHubShutdown],
          Some (None, [CallCloseShutdownCh; CallHubShutdown])).
Proof. by vm_compute. Qed.

Lemma Shutdown_idempotent_witness :
  shutdown (node w0) = false
  ∧ shutdownCh (node w0) = false
  ∧ ∃ w1 : TWorld,
      Shutdown w0 = Done (hub_shutdown (hub (node w0))).1 w1
      ∧ shutdown (node w1) = true
      ∧ shutdownCh (node w1) = true
      ∧ hub (node w1) = (hub_shutdown (hub (node w0))).2
      ∧ calls w1 = calls w0 ++ [CallCloseShutdownCh; CallHubShutdown]
      ∧ Shutdown w1 = Done None w1
      ∧ ∀ w2 : TWorld, shutdown (node w2) = true → Shutdown w2 = Done None w2.
Proof.
  split; [reflexivity|]. split; [reflexivity|].
  apply (Shutdown_idempotent w0); reflexivity.
Defined.

Example publish_stamps_run :
  observe (λ r w', (proto.Publication_UID r.1, r.2, publications_sent (engine (node w'))))
    (Publish "chat:lobby" hello w0)
  = Some ("N", None, [("chat:lobby", set_Publication_UID "N" hello)]).
Proof. by vm_compute. Qed.

Example publish_keeps_run :
  observe (λ r w', (r.1, nuid w'))
    (Publish "chat:lobby" (set_Publication_UID "p1" hello) w0)
  = Some (set_Publication_UID "p1" hello, 0%nat).
Proof. by vm_compute. Qed.

Example publish_unresolved_run :
  observe (λ r w', (r, calls w')) (Publish "zzz:lobby" hello w0)
  = Some ((hello, Some ErrNamespaceNotFound), []).
Proof. by vm_compute. Qed.

Example publish_nuid_run :
  observe_nuid (λ r w', (proto.Publication_UID r.1, r.2, nuid.seq (nuid w'),
                         publications_sent (engine (node w'))))
    (Publish "chat:lobby" hello w_nuid)
  = Some ("AAAAAAAAAAAA000000000X", None, 33,
          [("chat:lobby", set_Publication_UID "AAAAAAAAAAAA000000000X" hello)]).
Proof. by vm_compute. Qed.

Example publish_nuid_twice_run :
  observe_nuid (λ _ w1,
      observe_nuid (λ r _, proto.Publication_UID r.1) (Publish "chat:lobby" hello w1))
    (Publish "chat:lobby" hello w_nuid)
  = Some (Some "AAAAAAAAAAAA0000000014").
Proof. by vm_compute. Qed.

Example publish_nuid_keeps_run :
  observe_nuid (λ r w', (r.1, nuid.seq (nuid w')))
    (Publish "chat:lobby" (set_Publication_UID "p1" hello) w_nuid)
  = Some (set_Publication_UID "p1" hello, 0).
Proof. by vm_compute. Qed.

(** At [maxSeq] the generator draws a new prefix and sequence number. *)
Example publish_nuid_reseeds_run :
  observe_nuid (λ r w', (proto.Publication_UID r.1, nuid.drawn (nuid w')))
    (Publish "chat:lobby" hello w_nuid_last)
  = Some ("BBBBBBBBBBBB0000000000", 1%nat).
Proof. by vm_compute. Qed.


Lemma handleClientMessage_unknown_dropped_silently_witness :
  proto.Message_Type unknown_message ≠ proto.MessageTypePublication
  ∧ proto.Message_Type unknown_message ≠ proto.MessageTypeJoin
  ∧ proto.Message_Type unknown_message ≠ proto.MessageTypeLeave
  ∧ handleClientMessage unknown_message w0 = Done None w0.
Proof.
  split; [discriminate|]. split; [discriminate|]. split; [discriminate|].
  apply (handleClientMessage_unknown_dropped_silently unknown_message w0); discriminate.
Defined.

(** C4 as the specification words it fails: on a message of unknown
    type the node returns with the log as it was, so no entry of level
    error was added. *)
Lemma handleClientMessage_unknown_not_logged :
  ¬ logged_and_dropped unknown_message w0.
Proof.
  intros (w' & entry & Hrun & Hlog & _).
  assert (Hsilent : handleClientMessage unknown_message w0 = Done None w0)
    by (vm_compute; reflexivity).
  rewrite Hsilent in Hrun. injection Hrun as <-.
  apply (f_equal length) in Hlog. rewrite length_app in Hlog. simpl in Hlog. lia.
Qed.

(** A decomposition at a separator that does not occur further right
    is the rightmost one. *)
Lemma after_last_intro (sep head seg : string) :
  no_overlap sep (head +:+ sep +:+ seg) →
  Index seg sep = None →
  after_last sep (head +:+ sep +:+ seg) seg.
Proof.
  intros Hover Hnone. exists head. split; [done|]. intros u v Heq.
  destruct (decide (len u ≤ len head)%nat) as [|Hgt]; [done|]. exfalso.
  pose proof (Hover head seg u v eq_refl Heq) as Hgap.
  assert ((head +:+ sep) +:+ seg = u +:+ sep +:+ v) as Hboth by (by rewrite string_app_assoc).
  destruct (string_app_split _ _ _ _ Hboth) as (d & _ & Hseg); [rewrite len_app; lia|].
  by destruct (Index_None seg sep d v Hnone).
Qed.

Example userAllowed_alice : userAllowed test_config_value "room#alice,bob" "alice" = Some true.
Proof. reflexivity. Qed.

Example userAllowed_carol : userAllowed test_config_value "room#alice,bob" "carol" = Some false.
Proof. reflexivity. Qed.

Example userAllowed_no_boundary : userAllowed test_config_value "room" "carol" = Some true.
Proof. reflexivity. Qed.

Example userAllowed_last_boundary :
  userAllowed test_config_value "room#alice#bob" "alice" = Some false.
Proof. reflexivity. Qed.

Lemma userAllowed_after_last_boundary_witness :
  ChannelUserBoundary test_config_value ≠ ""
  ∧ no_overlap (ChannelUserBoundary test_config_value) "room#alice,bob"
  ∧ after_last (ChannelUserBoundary test_config_value) "room#alice,bob" "alice,bob"
  ∧ userAllowed test_config_value "room#alice,bob" "alice"
    = Some (bool_decide ("alice" ∈ Split "alice,bob" (ChannelUserSeparator test_config_value))).
Proof.
  assert (Hover : no_overlap (ChannelUserBoundary test_config_value) "room#alice,bob")
    by apply no_overlap_single.
  assert (Hlast : after_last (ChannelUserBoundary test_config_value)
                    "room#alice,bob" "alice,bob")
    by (apply (after_last_intro "#" "room" "alice,bob"); [exact Hover | reflexivity]).
  split; [discriminate|]. split; [exact Hover|]. split; [exact Hlast|].
  apply (userAllowed_after_last_boundary test_config_value "room#alice,bob" "alice");
    [discriminate | exact Hover | exact Hlast].
Defined.

Example Split_overlapping : Split "aaa" "aa" = [""; "a"].
Proof. reflexivity. Qed.

(** C5 as the specification words it fails for a boundary that
    overlaps itself: in "aaa" the rightmost "aa" ends the string, so
    the allowed list would be that of the empty text, yet the node
    admits user "a". *)
Lemma userAllowed_overlapping_boundary :
  ¬ userAllowed_as_specified overlapping_config "aaa" "a".
Proof.
  intros [_ Hsplit]. specialize (Hsplit "").
  assert (Hlast : after_last (ChannelUserBoundary overlapping_config) "aaa" "").
  { exists "a". split; [reflexivity|]. intros u v Heq.
    apply (f_equal len) in Heq. rewrite !len_app in Heq. simpl in Heq |- *. lia. }
  specialize (Hsplit Hlast). vm_compute in Hsplit. discriminate.
Qed.

Example namespaceName_private : namespaceName test_config_value "$ns:foo" = Some "ns".
Proof. reflexivity. Qed.

Example namespaceName_first_boundary :
  namespaceName test_config_value "ns:foo:bar" = Some "ns".
Proof. reflexivity. Qed.

Example namespaceName_root : namespaceName test_config_value "news" = Some "".
Proof. reflexivity. Qed.

Lemma namespaceName_before_first_boundary_witness :
  ChannelNamespaceBoundary test_config_value ≠ ""
  ∧ stripped (ChannelPrivatePrefix test_config_value) "$ns:foo" "ns:foo"
  ∧ before_first (ChannelNamespaceBoundary test_config_value) "ns:foo" "ns"
  ∧ namespaceName test_config_value "$ns:foo" = Some "ns".
Proof.
  assert (Hrest : stripped (ChannelPrivatePrefix test_config_value) "$ns:foo" "ns:foo")
    by (left; reflexivity).
  assert (Hfirst : before_first (ChannelNamespaceBoundary test_config_value) "ns:foo" "ns")
    by exact (Index_before_first ":" "ns:foo" 2 eq_refl).
  split; [discriminate|]. split; [exact Hrest|]. split; [exact Hfirst|].
  apply (namespaceName_before_first_boundary test_config_value "$ns:foo" "ns:foo");
    [discriminate | exact Hrest | exact Hfirst].
Defined.

Example namespaceName_empty_boundary : namespaceName zero_config "foo" = Some "f".
Proof. reflexivity. Qed.

Example namespaceName_empty_boundary_panics : namespaceName zero_config "" = None.
Proof. reflexivity. Qed.

(** C6 as the specification words it fails for an empty boundary: the
    empty string occurs at the very front of "foo", so the namespace
    would be empty, yet the node answers "f". *)
Lemma namespaceName_empty_boundary_differs :
  ¬ namespaceName_as_specified zero_config "foo".
Proof.
  intros Hspec. destruct (Hspec "foo") as [Hfirst _]; [left; reflexivity|].
  specialize (Hfirst "").
  assert (Hfront : before_first (ChannelNamespaceBoundary zero_config) "foo" "").
  { split; [by exists "foo"|]. intros u v _. simpl. lia. }
  specialize (Hfirst Hfront). vm_compute in Hfirst. discriminate.
Qed.

Lemma two_nodes_wf : registry_wf two_nodes.
Proof.
  apply add_wf; [unfold timestamp_ok; lia|].
  apply add_wf; [unfold timestamp_ok; lia|]. apply newNodeRegistry_wf.
Qed.

Example clean_peer_expiry :
  nodeRegistry.list (nodeRegistry.clean 2000 (30 * Second) two_nodes) = [self_record].
Proof. by vm_compute. Qed.

Example clean_peer_in_window :
  length (nodeRegistry.list (nodeRegistry.clean 2000 (60 * Second) two_nodes)) = 2%nat.
Proof. by vm_compute. Qed.

Example clean_keeps_stale_self :
  nodeRegistry.list (nodeRegistry.clean 9000 (30 * Second) two_nodes) = [self_record].
Proof. by vm_compute. Qed.

Lemma clean_removes_exactly_stale_peers_witness :
  0 ≤ 30 * Second < 2 ^ 24 * Second
  ∧ timestamp_ok 2000
  ∧ registry_wf two_nodes
  ∧ nodeRegistry.nodes (nodeRegistry.clean 2000 (30 * Second) two_nodes) !! "A" = None
  ∧ nodeRegistry.updates (nodeRegistry.clean 2000 (30 * Second) two_nodes) !! "A" = None
  ∧ nodeRegistry.nodes (nodeRegistry.clean 2000 (30 * Second) two_nodes) !! "self"
    = Some self_record.
Proof.
  assert (Hdelay : 0 ≤ 30 * Second < 2 ^ 24 * Second) by (unfold Second; lia).
  assert (Hnow : timestamp_ok 2000) by (unfold timestamp_ok; lia).
  split; [exact Hdelay|]. split; [exact Hnow|]. split; [exact two_nodes_wf|].
  destruct (clean_removes_exactly_stale_peers 2000 (30 * Second) two_nodes
              Hdelay Hnow two_nodes_wf) as [_ Hrecords].
  destruct (Hrecords "A") as (_ & _ & Hpeer).
  destruct (Hpeer peer_record) as (lastSeen & Hseen & Hstale & _);
    [discriminate | reflexivity |].
  assert (lastSeen = 1940) as -> by (vm_compute in Hseen; congruence).
  destruct Hstale as [Hnodes Hupdates]; [unfold Second; lia|].
  destruct (Hrecords "self") as (Hself & _).
  destruct (Hself eq_refl) as [Hkept _].
  split; [exact Hnodes|]. split; [exact Hupdates|]. rewrite Hkept. reflexivity.
Defined.

(** ** Further properties of the node registry *)
Section RegistryMore.

Implicit Types (r : nodeRegistry.t) (info : controlproto.Node) (uid : string).

Lemma registry_ext r1 r2 :
  nodeRegistry.currentUID r1 = nodeRegistry.currentUID r2 →
  (∀ uid, nodeRegistry.nodes r1 !! uid = nodeRegistry.nodes r2 !! uid) →
  (∀ uid, nodeRegistry.updates r1 !! uid = nodeRegistry.updates r2 !! uid) →
  r1 = r2.
Proof.
  destruct r1 as [c1 n1 u1], r2 as [c2 n2 u2]. simpl. intros -> Hn Hu.
  f_equal; by apply map_eq.
Qed.

Lemma evicted_same (now : Z) (delay : Duration) r1 r2 uid :
  nodeRegistry.currentUID r1 = nodeRegistry.currentUID r2 →
  nodeRegistry.updates r1 !! uid = nodeRegistry.updates r2 !! uid →
  evicted now delay r1 uid → evicted now delay r2 uid.
Proof. unfold evicted. intros <- <-. done. Qed.

(** X1. A record that was added is what [get] returns for its uid,
    with the clock as its last-seen time; the records of other uids are
    not touched, and a uid that is not in the registry reads as the
    zero [Node]. *)
Theorem add_get_round_trip (now : Z) info r :
  nodeRegistry.get (nodeRegistry.add now info r) (controlproto.Node_UID info) = info
  ∧ nodeRegistry.updates (nodeRegistry.add now info r) !! controlproto.Node_UID info
    = Some now
  ∧ (∀ uid, uid ≠ controlproto.Node_UID info →
       nodeRegistry.get (nodeRegistry.add now info r) uid = nodeRegistry.get r uid
       ∧ nodeRegistry.updates (nodeRegistry.add now info r) !! uid
         = nodeRegistry.updates r !! uid)
  ∧ (∀ uid, nodeRegistry.nodes r !! uid = None →
       nodeRegistry.get r uid = nodeRegistry.zeroNode).
Proof.
  unfold nodeRegistry.get. simpl. split; [|split; [|split]].
  - by rewrite lookup_insert_eq.
  - by rewrite lookup_insert_eq.
  - intros uid Hne. by rewrite !lookup_insert_ne.
  - by intros uid ->.
Qed.

Lemma list_length r : length (nodeRegistry.list r) = size (nodeRegistry.nodes r).
Proof. unfold nodeRegistry.list. by rewrite length_fmap, length_map_to_list. Qed.

(** X2. [list] returns exactly the records of the registry, one per
    uid; [add] is an upsert: for a uid already known the list keeps its
    length, for a new uid it grows by one. *)
Theorem list_and_add_upsert (now : Z) info r :
  (∀ nd, nd ∈ nodeRegistry.list r ↔ ∃ uid, nodeRegistry.nodes r !! uid = Some nd)
  ∧ length (nodeRegistry.list r) = size (nodeRegistry.nodes r)
  ∧ info ∈ nodeRegistry.list (nodeRegistry.add now info r)
  ∧ (is_Some (nodeRegistry.nodes r !! controlproto.Node_UID info) →
     length (nodeRegistry.list (nodeRegistry.add now info r))
     = length (nodeRegistry.list r))
  ∧ (nodeRegistry.nodes r !! controlproto.Node_UID info = None →
     length (nodeRegistry.list (nodeRegistry.add now info r))
     = S (length (nodeRegistry.list r))).
Proof.
  assert (Hmem : ∀ r' nd, nd ∈ nodeRegistry.list r'
                          ↔ ∃ uid, nodeRegistry.nodes r' !! uid = Some nd).
  { intros r' nd. unfold nodeRegistry.list. rewrite list_elem_of_fmap. split.
    - intros [[uid nd'] [-> Hin]]. exists uid. by apply elem_of_map_to_list.
    - intros [uid Hlookup]. exists (uid, nd). split; [done|].
      by apply elem_of_map_to_list. }
  split; [apply Hmem|]. split; [apply list_length|]. split; [|split].
  - apply Hmem. exists (controlproto.Node_UID info). simpl. by rewrite lookup_insert_eq.
  - intros [old Hold]. rewrite !list_length. simpl.
    rewrite <- (insert_delete_id (nodeRegistry.nodes r) _ _ Hold) at 2.
    rewrite <- insert_delete_eq.
    rewrite !map_size_insert_None by apply lookup_delete_eq. done.
  - intros Hnew. rewrite !list_length. simpl. by apply map_size_insert_None.
Qed.

(** X3. Cleaning twice is cleaning once. *)
Theorem clean_idempotent (now : Z) (delay : Duration) r :
  nodeRegistry.clean now delay (nodeRegistry.clean now delay r)
  = nodeRegistry.clean now delay r.
Proof.
  set (r1 := nodeRegistry.clean now delay r).
  assert (Hcur : nodeRegistry.currentUID r1 = nodeRegistry.currentUID r)
    by apply clean_currentUID.
  assert (Hlook : ∀ uid,
            nodeRegistry.nodes (nodeRegistry.clean now delay r1) !! uid
            = nodeRegistry.nodes r1 !! uid
            ∧ nodeRegistry.updates (nodeRegistry.clean now delay r1) !! uid
              = nodeRegistry.updates r1 !! uid).
  { intros uid. destruct (clean_lookup now delay r1 uid) as [_ Hsame].
    apply Hsame. intros [[nd Hnd] Hev].
    destruct (clean_lookup now delay r uid) as [Hgone Hkept]. fold r1 in Hgone, Hkept.
    destruct (decide (is_Some (nodeRegistry.nodes r !! uid) ∧ evicted now delay r uid))
      as [Hyes|Hno].
    - destruct (Hgone Hyes) as [Hnone _]. congruence.
    - destruct (Hkept Hno) as [Hn Hu]. apply Hno. split.
      + rewrite <- Hn, Hnd. by eexists.
      + by apply (evicted_same now delay r1 r uid). }
  apply registry_ext.
  - apply clean_currentUID.
  - intros uid. apply Hlook.
  - intros uid. apply Hlook.
Qed.

(** X4. [clean] only removes: what it leaves was there before,
    unchanged; the record of the registry's own uid always stays, and a
    peer record that has no timestamp is removed. *)
Theorem clean_only_removes (now : Z) (delay : Duration) r :
  (∀ uid nd, nodeRegistry.nodes (nodeRegistry.clean now delay r) !! uid = Some nd →
             nodeRegistry.nodes r !! uid = Some nd)
  ∧ (∀ uid t, nodeRegistry.updates (nodeRegistry.clean now delay r) !! uid = Some t →
              nodeRegistry.updates r !! uid = Some t)
  ∧ nodeRegistry.nodes (nodeRegistry.clean now delay r) !! nodeRegistry.currentUID r
    = nodeRegistry.nodes r !! nodeRegistry.currentUID r
  ∧ (∀ uid, uid ≠ nodeRegistry.currentUID r →
            nodeRegistry.updates r !! uid = None →
            nodeRegistry.nodes (nodeRegistry.clean now delay r) !! uid = None).
Proof.
  assert (Hcases : ∀ uid,
    (nodeRegistry.nodes (nodeRegistry.clean now delay r) !! uid = None
     ∧ nodeRegistry.updates (nodeRegistry.clean now delay r) !! uid = None)
    ∨ (nodeRegistry.nodes (nodeRegistry.clean now delay r) !! uid
       = nodeRegistry.nodes r !! uid
       ∧ nodeRegistry.updates (nodeRegistry.clean now delay r) !! uid
         = nodeRegistry.updates r !! uid)).
  { intros uid. destruct (clean_lookup now delay r uid) as [Hgone Hkept].
    destruct (decide (is_Some (nodeRegistry.nodes r !! uid) ∧ evicted now delay r uid));
      [left|right]; auto. }
  split; [|split; [|split]].
  - intros uid nd Hnd. destruct (Hcases uid) as [[Hn _]|[Hn _]]; congruence.
  - intros uid t Ht. destruct (Hcases uid) as [[_ Hu]|[_ Hu]]; congruence.
  - destruct (clean_lookup now delay r (nodeRegistry.currentUID r)) as [_ Hkept].
    apply Hkept. intros [_ [Hne _]]. done.
  - intros uid Hpeer Hnone.
    destruct (nodeRegistry.nodes r !! uid) as [nd|] eqn:Hnd.
    + destruct (clean_lookup now delay r uid) as [Hgone _]. apply Hgone.
      split; [by eexists|]. split; [done|]. intros t Ht. congruence.
    + destruct (Hcases uid) as [[Hn _]|[Hn _]]; congruence.
Qed.

(** X5. Every record has a last-seen time, and the times are clock
    values: true of a new registry, and kept by [add] and by [clean]. *)
Theorem registry_invariant_kept (now : Z) (delay : Duration) info r (currentUID : string) :
  registry_wf (nodeRegistry.newNodeRegistry currentUID)
  ∧ (timestamp_ok now → registry_wf r → registry_wf (nodeRegistry.add now info r))
  ∧ (registry_wf r → registry_wf (nodeRegistry.clean now delay r)).
Proof.
  split; [apply newNodeRegistry_wf|]. split.
  - apply add_wf.
  - apply clean_wf.
Qed.

(** X6. A longer delay keeps every record a shorter delay keeps. *)
Theorem clean_longer_delay_keeps_more (now : Z) (shorter longer : Duration) r uid nd :
  shorter ≤ longer →
  nodeRegistry.nodes (nodeRegistry.clean now shorter r) !! uid = Some nd →
  nodeRegistry.nodes (nodeRegistry.clean now longer r) !! uid = Some nd.
Proof.
  intros Hle Hkept.
  destruct (clean_lookup now shorter r uid) as [Hgone Hsame].
  destruct (decide (is_Some (nodeRegistry.nodes r !! uid) ∧ evicted now shorter r uid))
    as [Hyes|Hno].
  { destruct (Hgone Hyes) as [Hnone _]. congruence. }
  destruct (Hsame Hno) as [Hn _]. rewrite Hn in Hkept.
  destruct (clean_lookup now longer r uid) as [_ Hsame'].
  destruct Hsame' as [-> _]; [|done].
  intros [Hsome [Hpeer Hold]]. apply Hno. split; [done|]. split; [done|].
  intros t Ht. specialize (Hold t Ht). unfold whole_seconds in *.
  assert (shorter ÷ Second ≤ longer ÷ Second)
    by (apply Z.quot_le_mono; [unfold Second; lia | done]).
  lia.
Qed.

(** X7. A record that has just been added survives a [clean] at the
    same clock value, whatever the (non-negative) delay. *)
Theorem add_then_clean_keeps (now : Z) (delay : Duration) info r :
  0 ≤ delay → timestamp_ok now →
  nodeRegistry.nodes (nodeRegistry.clean now delay (nodeRegistry.add now info r))
    !! controlproto.Node_UID info = Some info.
Proof.
  intros Hdelay Hnow.
  destruct (clean_lookup now delay (nodeRegistry.add now info r)
              (controlproto.Node_UID info)) as [_ Hsame].
  destruct Hsame as [-> _]; [|simpl; by rewrite lookup_insert_eq].
  intros [_ [_ Hold]]. specialize (Hold now). simpl in Hold.
  rewrite lookup_insert_eq in Hold. specialize (Hold eq_refl).
  rewrite sub64_exact in Hold by done. unfold whole_seconds in Hold.
  assert (0 ≤ delay ÷ Second) by (apply Z.quot_pos; unfold Second; lia). lia.
Qed.

End RegistryMore.

(** ** Further properties of the channel grammar *)
Section GrammarMore.

Context {Namespaces : Type}.
Implicit Types (c : Config Namespaces) (ch rest user client : string).

Lemma Index_empty_sep (s : string) : Index s "" = Some 0%nat.
Proof. by destruct s. Qed.

Lemma Index_None_intro (s sep : string) :
  (∀ u v, s ≠ u +:+ sep +:+ v) → Index s sep = None.
Proof.
  intros Hno. destruct (Index s sep) as [m|] eqn:Hidx; [|done].
  destruct (Index_Some s sep m Hidx) as (u & v & Hs & _). by destruct (Hno u v).
Qed.

Lemma RuneCount_pos (a : ascii) (s : string) : (1 ≤ RuneCountInString (String a s))%nat.
Proof. unfold RuneCountInString. simpl. lia. Qed.

Lemma explode_loop_cons (k : nat) (s : string) :
  ∃ x parts, explode_loop k s = x :: parts.
Proof. destruct k; simpl; by eexists _, _. Qed.

Lemma explode_loop_last (k : nat) (s : string) : is_Some (last (explode_loop k s)).
Proof.
  revert s. induction k as [|k IH]; intros s; simpl; [by eexists|].
  rewrite last_cons. destruct (IH (slice_from (rune_width s) s)) as [x ->]. by eexists.
Qed.

(** With an empty separator a non-empty string splits into at least
    one part, the empty string into none. *)
Lemma explode_nil (s : string) (n : Z) : n ≠ 0 → explode s n = [] ↔ s = "".
Proof.
  intros Hn. unfold explode. destruct s as [|a s].
  - split; [done|]. intros _. change (RuneCountInString "") with 0%nat.
    change (Z.of_nat 0) with 0.
    destruct (Z.ltb_spec n 0) as [Hneg|Hpos]; simpl; [done|].
    destruct (Z.gtb_spec n 0) as [_|Hzero]; [done|lia].
  - split; [|done]. pose proof (RuneCount_pos a s) as Hpos.
    set (l := Z.of_nat (RuneCountInString (String a s))) in *.
    assert (Hclamped : 0 < (if (n <? 0) || (n >? l) then l else n)).
    { destruct (Z.ltb_spec n 0); simpl; [lia|]. destruct (Z.gtb_spec n l); lia. }
    destruct (Z.gtb_spec (if (n <? 0) || (n >? l) then l else n) 0); [|lia].
    destruct (explode_loop_cons
                (Z.to_nat ((if (n <? 0) || (n >? l) then l else n) - 1)) (String a s))
      as (x & parts & ->).
    done.
Qed.

Lemma TrimPrefix_empty (s prefix : string) :
  TrimPrefix s prefix = "" ↔ s = "" ∨ s = prefix.
Proof.
  unfold TrimPrefix. destruct (HasPrefix s prefix) eqn:Hp.
  - pose proof (HasPrefix_true s prefix Hp) as Hs. split.
    + intros Hrest. right. rewrite Hrest, string_app_nil_r in Hs. done.
    + intros [->| ->].
      * by destruct prefix.
      * rewrite <- (string_app_nil_r prefix) at 2. apply slice_from_app.
  - split; [by left|]. intros [->| ->]; [done|].
    rewrite <- (string_app_nil_r prefix) in Hp at 1. by rewrite HasPrefix_app in Hp.
Qed.

(** X8. [namespaceName] indexes out of range in one case only: the
    namespace boundary is the empty string and the channel is empty or
    is exactly the private prefix.  Everywhere else it returns. *)
Theorem namespaceName_panics_iff c ch :
  namespaceName c ch = None
  ↔ ChannelNamespaceBoundary c = "" ∧ (ch = "" ∨ ch = ChannelPrivatePrefix c).
Proof.
  rewrite <- TrimPrefix_empty.
  destruct (decide (ChannelNamespaceBoundary c = "")) as [Hempty|Hsep].
  - unfold namespaceName, Contains. rewrite Hempty, Index_empty_sep.
    unfold SplitN, genSplit. simpl.
    destruct (explode (TrimPrefix ch (ChannelPrivatePrefix c)) 2) as [|x parts] eqn:Hparts.
    + apply explode_nil in Hparts; [|done]. by split.
    + split; [done|]. intros [_ Hrest].
      apply (explode_nil _ 2) in Hrest; [|done]. congruence.
  - destruct (namespaceName_returns c ch Hsep) as [ns ->]. split; [done|].
    intros [? _]. done.
Qed.

(** X9. [userAllowed] and [clientAllowed] index out of range in one
    case only: their boundary is the empty string and the channel is
    empty. *)
Theorem allowed_panics_iff c ch user client :
  (userAllowed c ch user = None ↔ ChannelUserBoundary c = "" ∧ ch = "")
  ∧ (clientAllowed c ch client = None ↔ ChannelClientBoundary c = "" ∧ ch = "").
Proof.
  assert (Hlast : ∀ sep, at_index (Split ch sep) (Z.of_nat (length (Split ch sep)) - 1) = None
                         ↔ sep = "" ∧ ch = "").
  { intros sep. rewrite at_index_last. destruct (decide (sep = "")) as [->|Hsep].
    - unfold Split, genSplit. simpl. split.
      + intros Hnone. split; [done|]. apply (explode_nil ch (-1)); [done|].
        by apply last_None.
      + intros [_ Hch]. apply (explode_nil ch (-1)) in Hch; [|done]. by rewrite Hch.
    - rewrite (Split_loop _ _ Hsep).
      destruct (genSplit_loop_last (Count_loop (len ch) ch sep) ch sep 0) as [x ->].
      split; [done|]. intros [? _]. done. }
  split.
  - unfold userAllowed. destruct (Contains ch (ChannelUserBoundary c)) eqn:Hc; simpl.
    + rewrite <- Hlast. by destruct (at_index _ _).
    + split; [done|]. intros [Hb ->]. by rewrite Hb in Hc.
  - unfold clientAllowed. destruct (Contains ch (ChannelClientBoundary c)) eqn:Hc; simpl.
    + rewrite <- Hlast. by destruct (at_index _ _).
    + split; [done|]. intros [Hb ->]. by rewrite Hb in Hc.
Qed.

(** X10. [clientAllowed], for a non-empty [ChannelClientBoundary] whose
    occurrences in [ch] do not overlap: a channel without the boundary
    admits every client; otherwise the client is admitted iff it equals
    the text after the rightmost boundary. *)
Theorem clientAllowed_after_last_boundary c ch client :
  ChannelClientBoundary c ≠ "" →
  no_overlap (ChannelClientBoundary c) ch →
  ((∀ u v, ch ≠ u +:+ ChannelClientBoundary c +:+ v) →
   clientAllowed c ch client = Some true)
  ∧ (∀ seg, after_last (ChannelClientBoundary c) ch seg →
       clientAllowed c ch client = Some (bool_decide (client = seg))).
Proof.
  intros Hsep Hover. unfold clientAllowed.
  destruct (Contains ch (ChannelClientBoundary c)) eqn:Hcontains; simpl.
  - apply Contains_true in Hcontains as (u0 & v0 & Hch).
    rewrite at_index_last, (Split_loop _ _ Hsep).
    destruct (genSplit_loop_after_last _ (len ch) ch Hsep (le_n _) Hover) as [_ Hlast].
    split.
    + intros Hno. by destruct (Hno u0 v0).
    + intros seg Hseg. by rewrite (Hlast seg Hseg).
  - split; [done|]. intros seg (head & Hch & _).
    assert (Contains ch (ChannelClientBoundary c) = true) as Hyes
        by (apply Contains_true; by exists head, seg).
    congruence.
Qed.

(** X11. A channel that starts with the private prefix is private, and
    it has the namespace of the channel without the prefix (as long as
    that one is not private itself: the prefix is stripped once). *)
Theorem private_channel_shares_namespace c rest :
  privateChannel c rest = false →
  privateChannel c (ChannelPrivatePrefix c +:+ rest) = true
  ∧ namespaceName c (ChannelPrivatePrefix c +:+ rest) = namespaceName c rest.
Proof.
  unfold privateChannel, namespaceName. intros Hpublic.
  split; [apply HasPrefix_app|].
  rewrite TrimPrefix_present. unfold TrimPrefix. by rewrite Hpublic.
Qed.

(** The text before the leftmost separator holds no separator. *)
Lemma before_first_sep_free (s sep : string) (m : nat) :
  sep ≠ "" → Index s sep = Some m → Index (slice_to m s) sep = None.
Proof.
  intros Hsep Hidx. pose proof (len_pos sep Hsep) as Hpos.
  destruct (Index_Some s sep m Hidx) as (u & v & Hs & Hlen & Htake & _ & Hmin).
  rewrite Htake. apply Index_None_intro. intros a b Hu.
  assert (s = a +:+ sep +:+ (b +:+ sep +:+ v)) as Hearlier
      by (by rewrite Hs, Hu, !string_app_assoc).
  specialize (Hmin _ _ Hearlier).
  rewrite <- Hlen, Hu, !len_app in Hmin. lia.
Qed.

(** X12. For a non-empty namespace boundary, the namespace name that
    [namespaceName] returns never contains the boundary. *)
Theorem namespaceName_has_no_boundary c ch ns :
  ChannelNamespaceBoundary c ≠ "" →
  namespaceName c ch = Some ns →
  ∀ u v, ns ≠ u +:+ ChannelNamespaceBoundary c +:+ v.
Proof.
  intros Hsep Hns u v. unfold namespaceName, Contains in Hns.
  destruct (Index _ _) as [m|] eqn:Hidx.
  - rewrite (SplitN_2 _ _ m Hsep Hidx) in Hns. simpl in Hns. injection Hns as <-.
    apply Index_None. by apply before_first_sep_free.
  - injection Hns as <-. intros Heq. apply (f_equal len) in Heq.
    rewrite !len_app in Heq. pose proof (len_pos _ Hsep). simpl in Heq. lia.
Qed.

(** No part of a split holds the (non-empty) separator. *)
Lemma genSplit_loop_sep_free (sep : string) (fuel : nat) (s x : string) :
  sep ≠ "" → (len s ≤ fuel)%nat →
  x ∈ genSplit_loop (Count_loop fuel s sep) s sep 0 → Index x sep = None.
Proof.
  intros Hsep. pose proof (len_pos sep Hsep) as Hpos.
  revert s. induction fuel as [|fuel IH]; intros s Hfuel; simpl.
  - intros Hx. apply list_elem_of_singleton in Hx as ->.
    assert (s = "") as -> by (apply len_zero; lia). by destruct sep.
  - destruct (Index s sep) as [m|] eqn:Hidx; simpl.
    2:{ intros Hx. by apply list_elem_of_singleton in Hx as ->. }
    rewrite Hidx. intros Hx. apply elem_of_cons in Hx as [->|Hx].
    + rewrite Nat.add_0_r. by apply before_first_sep_free.
    + apply (IH (slice_from (m + len sep) s)); [|done].
      destruct (Index_Some s sep m Hidx) as (u & v & Hs & Hlen & _ & -> & _).
      rewrite Hs, !len_app in Hfuel. lia.
Qed.

(** X13. On a channel that has a user boundary, a user whose id
    contains the (non-empty) separator is never admitted. *)
Theorem user_with_separator_never_allowed c ch user :
  ChannelUserSeparator c ≠ "" →
  Contains ch (ChannelUserBoundary c) = true →
  (∃ u v, user = u +:+ ChannelUserSeparator c +:+ v) →
  userAllowed c ch user ≠ Some true.
Proof.
  intros Hsep Hcontains (u & v & Huser). unfold userAllowed.
  rewrite Hcontains. simpl. destruct (at_index _ _) as [last_part|]; [|done].
  rewrite userAllowed_range_elem. intros [= Hin]. apply bool_decide_eq_true in Hin.
  rewrite (Split_loop _ _ Hsep) in Hin.
  apply genSplit_loop_sep_free in Hin; [|done|done].
  by destruct (Index_None user (ChannelUserSeparator c) u v Hin).
Qed.

End GrammarMore.

(** ** Further properties of the node *)
Section NodeMore.

Context {Namespaces ChannelOptions Hub Engine Nuid Client : Type}.
Context `{!ConfigAPI Namespaces ChannelOptions} `{!ConfigValidateAPI Namespaces}
        `{!HubAPI Hub} `{!HubClientAPI Hub Client}
        `{!EngineAPI ChannelOptions Engine} `{!EngineMoreAPI ChannelOptions Engine}
        `{!ControlCodec} `{!MessageCodec} `{!NuidAPI Nuid}.

Abbreviation World := (@World Namespaces ChannelOptions Hub Engine Nuid).
Abbreviation M := (@M Namespaces ChannelOptions Hub Engine Nuid).

Ltac run :=
  unfold mbind, M_bind, mret, M_ret, get, modify, modify_node, record, log,
    inc_messagesReceivedCount, inc_messagesSentCount, inc_actionCount, panic; simpl.

(** X14. [Disconnect(user, reconnect)]: an empty user gives
    [BadRequest] and nothing happens; otherwise [hub.disconnect] runs
    first, with the caller's [reconnect].  If it fails the result is
    [InternalServerError] and nothing is published; if it succeeds the
    disconnect command is published, a failure of which gives
    [InternalServerError] with the hub left as the local step made it. *)
Theorem Disconnect_contract (user : string) (reconnect : bool) (w : World) :
  (user = "" → Disconnect user reconnect w = Done (Some ErrBadRequest) w)
  ∧ (user ≠ "" →
     let local := hub_disconnect user reconnect (hub (node w)) in
     let cmd := disconnect_command w user in
     let remote := engine_publishControl cmd (engine (node w)) in
     (is_Some local.1 →
      ∃ w', Disconnect user reconnect w = Done (Some ErrInternalServerError) w'
            ∧ calls w' = calls w ++ [CallHubDisconnect user reconnect]
            ∧ hub (node w') = local.2
            ∧ engine (node w') = engine (node w)
            ∧ messagesSentCount w' = messagesSentCount w)
     ∧ (local.1 = None →
        ∃ w', Disconnect user reconnect w
              = Done (match remote.1 with
                      | Some _ => Some ErrInternalServerError
                      | None => None
                      end) w'
              ∧ calls w' = calls w ++ [CallHubDisconnect user reconnect;
                                       CallEnginePublishControl cmd]
              ∧ hub (node w') = local.2
              ∧ engine (node w') = remote.2)).
Proof.
  split.
  - intros ->. reflexivity.
  - intros Huser local cmd remote. unfold Disconnect.
    destruct (decide (user = "")) as [|_]; [contradiction|].
    unfold on_hub. run. fold local.
    destruct local as [[e|] h'] eqn:Hlocal; simpl.
    + split; [intros _ | intros [=]]. eexists. split; [reflexivity|]. by repeat split.
    + split; [intros [? [=]] | intros _].
      rewrite pubDisconnect_run. unfold on_engine. run.
      change (disconnect_command _ user) with cmd. fold remote.
      destruct remote as [[e|] e'] eqn:Hremote; simpl;
        (eexists; split; [reflexivity|]); simpl; rewrite <- app_assoc; by repeat split.
Qed.

(** X15. A control command of another node that cannot be applied,
    because its method is unknown or its params do not decode, is
    answered with an error (the decoder's, or "method not found") and
    one log entry of level error; the node, with its hub and registry,
    is untouched and nothing is called. *)
Theorem handleControl_rejects (cmd : controlproto.Command) (w : World) (e : error) :
  controlproto.Command_UID cmd ≠ uid (node w) →
  match controlproto.Command_Method cmd with
  | controlproto.MethodTypeNode =>
      DecodeNode (controlproto.Command_Params cmd) = inr e
  | controlproto.MethodTypeUnsubscribe =>
      DecodeUnsubscribe (controlproto.Command_Params cmd) = inr e
  | controlproto.MethodTypeDisconnect =>
      DecodeDisconnect (controlproto.Command_Params cmd) = inr e
  | controlproto.MethodTypeUnknown _ =>
      e = ErrControlMethodNotFound (controlproto.Command_Method cmd)
  end →
  ∃ w', handleControl cmd w = Done (Some e) w'
        ∧ node w' = node w
        ∧ calls w' = calls w
        ∧ logged_error w w'.
Proof.
  intros Huid Hbad. unfold handleControl. run.
  destruct (decide _) as [|_]; [contradiction|].
  destruct (controlproto.Command_Method cmd); simpl; try rewrite Hbad; try subst e;
    (eexists; split; [reflexivity|]); simpl; repeat split; by eexists.
Qed.

Lemma handleControl_node
    (cmd : controlproto.Command) (info : controlproto.Node) (w : World) :
  controlproto.Command_UID cmd ≠ uid (node w) →
  controlproto.Command_Method cmd = controlproto.MethodTypeNode →
  DecodeNode (controlproto.Command_Params cmd) = inl info →
  handleControl cmd w
  = Done None
      (set_node (set_nodes (nodeRegistry.add (clock w) info (nodes (node w))) (node w))
                (received "control" w)).
Proof.
  intros Huid Hmethod Hdecode. unfold handleControl. run.
  destruct (decide _) as [|_]; [contradiction|].
  rewrite Hmethod, Hdecode. reflexivity.
Qed.

(** X16. A node command of another node is stored in the registry under
    the uid of the decoded record, with the clock as its last-seen
    time; the hub is untouched, nothing is called or logged, and the
    answer is [nil]. *)
Theorem handleControl_node_from_peer
    (cmd : controlproto.Command) (info : controlproto.Node) (w : World) :
  controlproto.Command_UID cmd ≠ uid (node w) →
  controlproto.Command_Method cmd = controlproto.MethodTypeNode →
  DecodeNode (controlproto.Command_Params cmd) = inl info →
  ∃ w', handleControl cmd w = Done None w'
        ∧ nodes (node w') = nodeRegistry.add (clock w) info (nodes (node w))
        ∧ nodeRegistry.get (nodes (node w')) (controlproto.Node_UID info) = info
        ∧ hub (node w') = hub (node w)
        ∧ engine (node w') = engine (node w)
        ∧ calls w' = calls w
        ∧ logged w' = logged w.
Proof.
  intros Huid Hmethod Hdecode. rewrite (handleControl_node cmd info w Huid Hmethod Hdecode).
  eexists. split; [reflexivity|]. simpl. repeat split.
  unfold nodeRegistry.get. simpl. by rewrite lookup_insert_eq.
Qed.

Lemma handleControl_unsubscribe
    (cmd : controlproto.Command) (u : controlproto.Unsubscribe) (w : World) :
  controlproto.Command_UID cmd ≠ uid (node w) →
  controlproto.Command_Method cmd = controlproto.MethodTypeUnsubscribe →
  DecodeUnsubscribe (controlproto.Command_Params cmd) = inl u →
  handleControl cmd w
  = on_hub (CallHubUnsubscribe (controlproto.Unsubscribe_User u)
                               (controlproto.Unsubscribe_Channel u))
      (hub_unsubscribe (controlproto.Unsubscribe_User u)
                       (controlproto.Unsubscribe_Channel u)) (received "control" w).
Proof.
  intros Huid Hmethod Hdecode. unfold handleControl. run.
  destruct (decide _) as [|_]; [contradiction|].
  rewrite Hmethod, Hdecode. reflexivity.
Qed.

(** The ways [Unsubscribe] returns. *)
Lemma Unsubscribe_inv (user ch : string) (w w' : World) (r : option error) :
  Unsubscribe user ch w = Done r w' →
  (r = Some ErrBadRequest ∧ w' = w)
  ∨ (r = Some ErrNamespaceNotFound ∧ w' = w)
  ∨ Unsubscribe_steps user ch w = Done r w'.
Proof.
  unfold Unsubscribe.
  destruct (decide (user = "")) as [|_].
  { intros [= <- <-]. by left. }
  destruct (decide (ch ≠ "")) as [_|_]; [|intros Hrun; right; right; exact Hrun].
  unfold mbind at 1. unfold M_bind at 1. unfold mbind at 1. unfold M_bind at 1.
  destruct (ChannelOpts ch w) as [o w1|] eqn:Hopts; [|done].
  apply ChannelOpts_pure in Hopts as ->.
  destruct o as [o|]; simpl.
  - intros Hrun. right; right. exact Hrun.
  - intros [= <- <-]. right. by left.
Qed.

Lemma Unsubscribe_steps_success (user ch : string) (w w' : World) :
  Unsubscribe_steps user ch w = Done None w' →
  uid (node w') = uid (node w)
  ∧ last (calls w') = Some (CallEnginePublishControl (unsubscribe_command w user ch)).
Proof.
  unfold Unsubscribe_steps. unfold mbind at 1. unfold M_bind at 1.
  rewrite on_hub_run.
  destruct (hub_unsubscribe user ch (hub (node w))) as [[e|] h]; simpl; [done|].
  unfold mbind, M_bind. rewrite pubUnsubscribe_run, on_engine_run. simpl.
  destruct (engine_publishControl _ _) as [[e|] e']; simpl; [done|].
  intros [= <-]. simpl. split; [done|]. by rewrite last_snoc.
Qed.

(** X17. Cluster-wide unsubscribe, end to end: when [Unsubscribe(user,
    ch)] succeeds on one node, the command it published, received by a
    node of another uid whose decoder reads back what was encoded,
    makes that node call [hub.unsubscribe(user, ch)] and answer with
    the hub's own error; received by the sender itself it is
    suppressed. *)
Theorem cluster_unsubscribe_end_to_end (user ch : string) (sender sender' peer : World) :
  DecodeUnsubscribe (EncodeUnsubscribe (controlproto.mkUnsubscribe user ch)).1
  = inl (controlproto.mkUnsubscribe user ch) →
  uid (node sender) ≠ uid (node peer) →
  Unsubscribe user ch sender = Done None sender' →
  last (calls sender')
  = Some (CallEnginePublishControl (unsubscribe_command sender user ch))
  ∧ (∃ peer', handleControl (unsubscribe_command sender user ch) peer
              = Done (hub_unsubscribe user ch (hub (node peer))).1 peer'
       ∧ hub (node peer') = (hub_unsubscribe user ch (hub (node peer))).2
       ∧ calls peer' = calls peer ++ [CallHubUnsubscribe user ch])
  ∧ handleControl (unsubscribe_command sender user ch) sender'
    = Done None (received "control" sender').
Proof.
  intros Hcodec Hpeer Hrun.
  apply Unsubscribe_inv in Hrun as [[[=] _]|[[[=] _]|Hsteps]].
  apply Unsubscribe_steps_success in Hsteps as [Huid Hlast].
  split; [exact Hlast|]. split.
  - rewrite (handleControl_unsubscribe _ (controlproto.mkUnsubscribe user ch) peer);
      [|exact Hpeer|reflexivity|exact Hcodec].
    rewrite on_hub_run. by eauto.
  - apply handleControl_self. simpl. by rewrite Huid.
Qed.

Lemma handlePublication_run (ch : string) (pub : proto.Publication) (w : World) :
  handlePublication ch pub w
  = if hub_NumSubscribers ch (hub (node w)) >? 0
    then on_hub (CallHubBroadcastPublication ch pub) (hub_broadcastPublication ch pub)
           (received "publication" w)
    else Done None (received "publication" w).
Proof. unfold handlePublication. run. by destruct (_ >? _). Qed.

Lemma handleJoin_run (ch : string) (join : proto.Join) (w : World) :
  handleJoin ch join w
  = if hub_NumSubscribers ch (hub (node w)) >? 0
    then on_hub (CallHubBroadcastJoin ch join) (hub_broadcastJoin ch join)
           (received "join" w)
    else Done None (received "join" w).
Proof. unfold handleJoin. run. by destruct (_ >? _). Qed.

Lemma handleLeave_run (ch : string) (leave : proto.Leave) (w : World) :
  handleLeave ch leave w
  = if hub_NumSubscribers ch (hub (node w)) >? 0
    then on_hub (CallHubBroadcastLeave ch leave) (hub_broadcastLeave ch leave)
           (received "leave" w)
    else Done None (received "leave" w).
Proof. unfold handleLeave. run. by destruct (_ >? _). Qed.

(** X18. [handleClientMessage] always returns, and its error is the
    decoder's and nothing else: a failed broadcast is not reported.
    When decoding fails the world is untouched (the message is not even
    counted as received). *)
Theorem handleClientMessage_error_is_decode_error (message : proto.Message) (w : World) :
  ∃ w', handleClientMessage message w = Done (decode_error message) w'
        ∧ (is_Some (decode_error message) → w' = w).
Proof.
  unfold handleClientMessage, decode_error.
  destruct (proto.Message_Type message).
  - destruct (DecodePublication _) as [pub|err]; [|by eexists].
    unfold mbind, M_bind. rewrite handlePublication_run.
    destruct (_ >? _); [rewrite on_hub_run|]; eexists; (split; [reflexivity|]);
      by intros [? [=]].
  - destruct (DecodeJoin _) as [join|err]; [|by eexists].
    unfold mbind, M_bind. rewrite handleJoin_run.
    destruct (_ >? _); [rewrite on_hub_run|]; eexists; (split; [reflexivity|]);
      by intros [? [=]].
  - destruct (DecodeLeave _) as [leave|err]; [|by eexists].
    unfold mbind, M_bind. rewrite handleLeave_run.
    destruct (_ >? _); [rewrite on_hub_run|]; eexists; (split; [reflexivity|]);
      by intros [? [=]].
  - eexists. split; [reflexivity|]. by intros [? [=]].
Qed.

(** X19. A publication from the engine is counted as received, and is
    broadcast through the hub exactly when the channel has subscribers
    on this node: without subscribers the hub is not called and the
    answer is [nil]; with subscribers the answer is the hub's. *)
Theorem handlePublication_broadcast_iff_subscribers
    (ch : string) (pub : proto.Publication) (w : World) :
  (hub_NumSubscribers ch (hub (node w)) ≤ 0 →
   handlePublication ch pub w = Done None (received "publication" w))
  ∧ (0 < hub_NumSubscribers ch (hub (node w)) →
     ∃ w', handlePublication ch pub w
           = Done (hub_broadcastPublication ch pub (hub (node w))).1 w'
       ∧ calls w' = calls w ++ [CallHubBroadcastPublication ch pub]
       ∧ hub (node w') = (hub_broadcastPublication ch pub (hub (node w))).2
       ∧ messagesReceivedCount w' = Inc "publication" (messagesReceivedCount w)).
Proof.
  rewrite handlePublication_run. split; intros Hsubs.
  - destruct (Z.gtb_spec (hub_NumSubscribers ch (hub (node w))) 0); [lia|done].
  - destruct (Z.gtb_spec (hub_NumSubscribers ch (hub (node w))) 0); [|lia].
    rewrite on_hub_run. by eauto.
Qed.

(** X20. A channel whose namespace does not resolve sends nothing:
    [publish], [publishJoin] and [publishLeave] called without options
    give [ErrNamespaceNotFound] and leave the world as it was: nothing
    is counted as sent, the engine is not called, and the publication
    keeps its uid, empty or not. *)
Theorem unresolved_namespace_sends_nothing
    (ch : string) (pub : proto.Publication) (join : proto.Join) (leave : proto.Leave)
    (w : World) :
  ChannelOpts ch w = Done None w →
  publish ch pub None w = Done (pub, Some ErrNamespaceNotFound) w
  ∧ publishJoin ch join None w = Done (Some ErrNamespaceNotFound) w
  ∧ publishLeave ch leave None w = Done (Some ErrNamespaceNotFound) w.
Proof.
  intros Hopts. split; [by apply publish_unresolved|].
  unfold publishJoin, publishLeave. unfold mbind at 1 3. unfold M_bind at 1 3.
  by rewrite Hopts.
Qed.

(** The world after the node has stored its own record. *)
Lemma pubNode_run (w : World) :
  pubNode w
  = on_engine (CallEnginePublishControl (node_command w))
      (engine_publishControl (node_command w))
      (sent "control"
         (set_node (set_nodes (nodeRegistry.add (clock w) (self_info w) (nodes (node w)))
                              (node w)) w)).
Proof.
  unfold pubNode, node_command, self_info, publishControl, nodeCmd. run.
  destruct (EncodeNode _) as [params e]. reflexivity.
Qed.

(** X21. [pubNode] is local first: whatever the engine answers, the
    node's own record (uid, name, version, the hub's three counters and
    the uptime, as [uint32]) is in the registry afterwards with the
    clock as its last-seen time; the node command is the one call made,
    and the engine's answer is returned. *)
Theorem pubNode_local_first (w : World) :
  ∃ w', pubNode w = Done (engine_publishControl (node_command w) (engine (node w))).1 w'
        ∧ nodes (node w') = nodeRegistry.add (clock w) (self_info w) (nodes (node w))
        ∧ nodeRegistry.get (nodes (node w')) (uid (node w)) = self_info w
        ∧ nodeRegistry.updates (nodes (node w')) !! uid (node w) = Some (clock w)
        ∧ calls w' = calls w ++ [CallEnginePublishControl (node_command w)]
        ∧ controlproto.Command_UID (node_command w) = uid (node w)
        ∧ hub (node w') = hub (node w)
        ∧ logged w' = logged w.
Proof.
  rewrite pubNode_run, on_engine_run. eexists. split; [reflexivity|]. simpl.
  repeat split.
  - unfold nodeRegistry.get. simpl. by rewrite lookup_insert_eq.
  - by rewrite lookup_insert_eq.
Qed.

(** X22. Peer discovery, end to end: the command [pubNode] publishes,
    received by a node of another uid whose decoder reads back what
    was encoded, puts the sender's record into that node's registry,
    seen at the receiver's clock; received by the sender itself it is
    suppressed. *)
Theorem peer_discovery_end_to_end (sender sender' peer : World) (r : option error) :
  DecodeNode (EncodeNode (self_info sender)).1 = inl (self_info sender) →
  uid (node sender) ≠ uid (node peer) →
  pubNode sender = Done r sender' →
  (∃ peer', handleControl (node_command sender) peer = Done None peer'
     ∧ nodeRegistry.get (nodes (node peer')) (uid (node sender)) = self_info sender
     ∧ nodeRegistry.updates (nodes (node peer')) !! uid (node sender) = Some (clock peer)
     ∧ hub (node peer') = hub (node peer))
  ∧ handleControl (node_command sender) sender' = Done None (received "control" sender').
Proof.
  intros Hcodec Hpeer Hrun. split.
  - rewrite (handleControl_node _ (self_info sender) peer);
      [|exact Hpeer|reflexivity|exact Hcodec].
    eexists. split; [reflexivity|]. simpl.
    unfold nodeRegistry.get. simpl. rewrite !lookup_insert_eq. done.
  - apply handleControl_self. simpl.
    rewrite pubNode_run, on_engine_run in Hrun. by injection Hrun as _ <-.
Qed.

Lemma Info_run (w : World) :
  Info w
  = Done (mkNodeInfo (engine_name (engine (node w)))
            (node_result <$> nodeRegistry.list (nodes (node w))), None) w.
Proof. reflexivity. Qed.

(** X23. [Info] never fails and changes nothing; it reports one result
    per registry record.  After [pubNode], whatever the engine
    answered, the node finds itself in its own [Info]. *)
Theorem Info_lists_self_after_pubNode (w w' : World) (r : option error) :
  pubNode w = Done r w' →
  ∃ info, Info w' = Done (info, None) w'
          ∧ length (NodeInfo_Nodes info) = size (nodeRegistry.nodes (nodes (node w')))
          ∧ node_result (self_info w) ∈ NodeInfo_Nodes info.
Proof.
  intros Hrun. rewrite pubNode_run, on_engine_run in Hrun. injection Hrun as _ <-.
  rewrite Info_run. eexists. split; [reflexivity|]. simpl. split.
  - by rewrite length_fmap, list_length.
  - apply list_elem_of_fmap. exists (self_info w). split; [done|].
    unfold nodeRegistry.list. apply list_elem_of_fmap.
    exists (uid (node w), self_info w). split; [done|].
    apply elem_of_map_to_list. simpl. by rewrite lookup_insert_eq.
Qed.

(** *** What message handling and API calls leave alone *)

Lemma node_static_refl (w : World) : node_static w w.
Proof. by repeat split. Qed.

Lemma node_static_trans (w1 w2 w3 : World) :
  node_static w1 w2 → node_static w2 w3 → node_static w1 w3.
Proof.
  intros (?&?&?&?&?&?) (?&?&?&?&?&?). repeat split; congruence.
Qed.

Lemma keeps_ret {A} (a : A) : keeps_static (mret a : M A).
Proof. intros w a' w' [= _ <-]. apply node_static_refl. Qed.

Lemma keeps_bind {A B} (m : M A) (k : A → M B) :
  keeps_static m → (∀ a, keeps_static (k a : M _)) → keeps_static (m ≫= k : M _).
Proof.
  intros Hm Hk w b w'. unfold mbind, M_bind.
  destruct (m w) as [a w1|] eqn:Hrun; [|done]. intros Hrest.
  eapply node_static_trans; [by eapply Hm | by eapply Hk].
Qed.

Lemma keeps_get : keeps_static (get : M World).
Proof. intros w a w' [= _ <-]. apply node_static_refl. Qed.

Lemma keeps_panic {A} (reason : string) : keeps_static (panic reason : M A).
Proof. intros w a w' [=]. Qed.

Lemma keeps_modify (f : World → World) :
  (∀ w, node_static w (f w)) → keeps_static (modify f : M _).
Proof. intros Hf w a w' [= _ <-]. apply Hf. Qed.

Lemma keeps_on_hub {A} (c : Call) (f : Hub → A * Hub) : keeps_static (on_hub c f : M _).
Proof. intros w a w'. rewrite on_hub_run. intros [= _ <-]. by repeat split. Qed.

Lemma keeps_on_engine {A} (c : Call) (f : Engine → A * Engine) :
  keeps_static (on_engine c f : M _).
Proof. intros w a w'. rewrite on_engine_run. intros [= _ <-]. by repeat split. Qed.

Lemma with_hub_run {A} (f : Hub → A * Hub) (w : World) :
  with_hub f w = Done (f (hub (node w))).1 (set_node (set_hub (f (hub (node w))).2 (node w)) w).
Proof. unfold with_hub. run. destruct (f _). reflexivity. Qed.

Lemma with_engine_run {A} (f : Engine → A * Engine) (w : World) :
  with_engine f w
  = Done (f (engine (node w))).1 (set_node (set_engine (f (engine (node w))).2 (node w)) w).
Proof. unfold with_engine. run. destruct (f _). reflexivity. Qed.

Lemma keeps_with_hub {A} (f : Hub → A * Hub) : keeps_static (with_hub f : M _).
Proof. intros w a w'. rewrite with_hub_run. intros [= _ <-]. by repeat split. Qed.

Lemma keeps_with_engine {A} (f : Engine → A * Engine) : keeps_static (with_engine f : M _).
Proof. intros w a w'. rewrite with_engine_run. intros [= _ <-]. by repeat split. Qed.

Lemma keeps_log (e : LogEntry) : keeps_static (log e : M _).
Proof. by apply keeps_modify. Qed.

Lemma keeps_received (label : string) : keeps_static (inc_messagesReceivedCount label : M _).
Proof. by apply keeps_modify. Qed.

Lemma keeps_sent (label : string) : keeps_static (inc_messagesSentCount label : M _).
Proof. by apply keeps_modify. Qed.

Lemma keeps_action (label : string) : keeps_static (inc_actionCount label : M _).
Proof. by apply keeps_modify. Qed.

Lemma keeps_nodeCmd (info : controlproto.Node) : keeps_static (nodeCmd info : M _).
Proof.
  unfold nodeCmd. apply keeps_bind; [|intros; apply keeps_ret].
  by apply keeps_modify.
Qed.

Lemma keeps_ChannelOpts (ch : string) : keeps_static (ChannelOpts ch : M _).
Proof.
  intros w a w' Hrun. apply ChannelOpts_pure in Hrun as ->. apply node_static_refl.
Qed.

Lemma keeps_nuid_next : keeps_static (nuid_next : M _).
Proof.
  unfold nuid_next. intros w a w'. run. destruct (nuid_Next _).
  intros [= _ <-]. by repeat split.
Qed.

Lemma keeps_publishControl (cmd : controlproto.Command) : keeps_static (publishControl cmd : M _).
Proof.
  unfold publishControl. apply keeps_bind; [apply keeps_sent|intros; apply keeps_on_engine].
Qed.

Ltac keeps_step :=
  first
    [ apply keeps_ret | apply keeps_get | apply keeps_panic | apply keeps_log
    | apply keeps_received | apply keeps_sent | apply keeps_action
    | apply keeps_on_hub | apply keeps_on_engine | apply keeps_with_hub
    | apply keeps_with_engine | apply keeps_nodeCmd | apply keeps_ChannelOpts
    | apply keeps_nuid_next | apply keeps_publishControl
    | apply keeps_bind; [|intros ?]
    | match goal with
      | |- keeps_static (match ?x with _ => _ end) => destruct x
      end ].

Ltac keeps_all := repeat keeps_step.

(** X24. Handling a control command or a client message, [Unsubscribe],
    [Disconnect], [publish], [pubNode], [addSubscription],
    [removeSubscription] and a round of the registry cleaner never
    change the node's uid, start time, configuration, shutdown flag or
    shutdown channel, nor the registry's own uid. *)
Theorem node_identity_kept
    (cmd : controlproto.Command) (message : proto.Message) (user ch : string)
    (reconnect : bool) (pub : proto.Publication) (opts : option ChannelOptions)
    (c : Client) (delay : Duration) :
  keeps_static (handleControl cmd : M _)
  ∧ keeps_static (handleClientMessage message : M _)
  ∧ keeps_static (Unsubscribe user ch : M _)
  ∧ keeps_static (Disconnect user reconnect : M _)
  ∧ keeps_static (publish ch pub opts : M _)
  ∧ keeps_static (pubNode : M _)
  ∧ keeps_static (addSubscription ch c : M _)
  ∧ keeps_static (removeSubscription ch c : M _)
  ∧ keeps_static (cleanNodeInfo_round delay : M _).
Proof.
  repeat apply conj.
  - unfold handleControl. keeps_all.
  - unfold handleClientMessage, handlePublication, handleJoin, handleLeave. keeps_all.
  - unfold Unsubscribe, pubUnsubscribe. keeps_all.
  - unfold Disconnect, pubDisconnect. keeps_all.
  - unfold publish. keeps_all.
  - intros w a w'. rewrite pubNode_run, on_engine_run. intros [= _ <-]. by repeat split.
  - unfold addSubscription. keeps_all.
  - unfold removeSubscription. keeps_all.
  - unfold cleanNodeInfo_round. apply keeps_modify. intros w. repeat split. simpl.
    apply clean_currentUID.
Qed.

(** What a control command can do to the registry: nothing, or one
    [add] at the current clock. *)
Lemma handleControl_nodes (cmd : controlproto.Command) (w w' : World) (r : option error) :
  handleControl cmd w = Done r w' →
  nodes (node w') = nodes (node w)
  ∨ ∃ info, nodes (node w') = nodeRegistry.add (clock w) info (nodes (node w)).
Proof.
  unfold handleControl. run.
  destruct (decide _) as [_|_]; [intros [= _ <-]; by left|].
  destruct (controlproto.Command_Method cmd); simpl.
  - destruct (DecodeNode _) as [info|e]; simpl.
    + unfold nodeCmd. run. intros [= _ <-]. right. by exists info.
    + intros [= _ <-]. by left.
  - destruct (DecodeUnsubscribe _) as [u|e]; simpl.
    + rewrite on_hub_run. intros [= _ <-]. by left.
    + intros [= _ <-]. by left.
  - destruct (DecodeDisconnect _) as [d|e]; simpl.
    + rewrite on_hub_run. intros [= _ <-]. by left.
    + intros [= _ <-]. by left.
  - intros [= _ <-]. by left.
Qed.

(** X25. Once the node has announced itself, its registry holds a
    record under its own uid, and neither a control command from any
    node nor a round of the cleaner removes it. *)
Theorem self_record_invariant (w w' : World) :
  nodeRegistry.currentUID (nodes (node w)) = uid (node w) →
  (∀ r, pubNode w = Done r w' → self_known w')
  ∧ (self_known w → ∀ cmd r, handleControl cmd w = Done r w' → self_known w')
  ∧ (self_known w → ∀ delay, cleanNodeInfo_round delay w = Done tt w' → self_known w').
Proof.
  intros Hcur. split; [|split].
  - intros r Hrun. rewrite pubNode_run, on_engine_run in Hrun. injection Hrun as _ <-.
    split; simpl; [done|]. rewrite lookup_insert_eq. by eexists.
  - intros [_ Hself] cmd r Hrun.
    assert (Hstatic : node_static w w').
    { assert (Hkeeps : keeps_static (handleControl cmd : M _))
        by (unfold handleControl; keeps_all).
      by eapply Hkeeps. }
    destruct Hstatic as (Huid & _ & _ & _ & _ & Hreg).
    apply handleControl_nodes in Hrun.
    split; [congruence|]. rewrite Huid.
    destruct Hrun as [->|[info ->]]; [done|]. simpl.
    destruct (decide (controlproto.Node_UID info = uid (node w))) as [->|Hne].
    + rewrite lookup_insert_eq. by eexists.
    + by rewrite lookup_insert_ne.
  - intros [_ Hself] delay [= <-]. split; simpl.
    + by rewrite clean_currentUID.
    + destruct (clean_lookup (clock w) delay (nodes (node w)) (uid (node w)))
        as [_ Hkept].
      destruct Hkept as [-> _]; [|done]. intros [_ [Hne _]]. congruence.
Qed.

Lemma Run_run (e : Engine) (w : World) :
  Run e w
  = match (engine_run e).1 with
    | Some err =>
        Done (Some err) (set_node (set_engine (engine_run e).2 (node w)) w)
    | None =>
        match pubNode (set_node (set_engine (engine_run e).2 (node w)) w) with
        | Done (Some e0) w2 =>
            Done None
              (set_logged
                 (logged w2
                  ++ [newLogEntry LogLevelError "error publishing node control command"
                        [("error", LogErrorText e0)]]) w2)
        | Done None w2 => Done None w2
        | Panic reason => Panic reason
        end
    end.
Proof.
  unfold Run, with_engine. run. destruct (engine_run e) as [[err|] e1]; simpl; [done|].
  destruct (pubNode _) as [[e0|] w2|]; done.
Qed.

(** X26. [Run] attaches the engine and starts it.  If [engine.run]
    fails its error is returned and the node announces nothing; if it
    succeeds the node stores and publishes its own record and [Run]
    returns [nil] even when that publication fails, in which case one
    entry of level error is logged. *)
Theorem Run_outcomes (e : Engine) (w : World) :
  let started := engine_run e in
  let announced := engine_publishControl (node_command w) started.2 in
  (∀ err, started.1 = Some err →
     ∃ w', Run e w = Done (Some err) w'
           ∧ engine (node w') = started.2
           ∧ nodes (node w') = nodes (node w)
           ∧ calls w' = calls w
           ∧ logged w' = logged w)
  ∧ (started.1 = None →
     ∃ w', Run e w = Done None w'
           ∧ engine (node w') = announced.2
           ∧ nodeRegistry.get (nodes (node w')) (uid (node w)) = self_info w
           ∧ calls w' = calls w ++ [CallEnginePublishControl (node_command w)]
           ∧ (is_Some announced.1 → logged_error w w')
           ∧ (announced.1 = None → logged w' = logged w)).
Proof.
  intros started announced. rewrite Run_run. subst started announced.
  destruct (engine_run e) as [[err0|] e1]; simpl.
  - split; [|intros [=]]. intros err [= <-]. eexists. split; [reflexivity|].
    by repeat split.
  - split; [intros err [=]|intros _].
    rewrite pubNode_run, on_engine_run. simpl.
    change (node_command _) with (node_command w).
    destruct (engine_publishControl (node_command w) e1) as [[e0|] e2]; simpl;
      (eexists; split; [reflexivity|]); simpl.
    + repeat split.
      * unfold nodeRegistry.get. simpl. by rewrite lookup_insert_eq.
      * intros _. by eexists.
      * intros [=].
    + repeat split.
      * unfold nodeRegistry.get. simpl. by rewrite lookup_insert_eq.
      * intros [? [=]].
Qed.

(** X27. The engine follows the hub: [addSubscription] calls
    [engine.subscribe] only when [hub.addSub] succeeded and reported
    the first subscriber of the channel, and [removeSubscription] calls
    [engine.unsubscribe] only when [hub.removeSub] succeeded and
    reported the channel empty; a hub error is returned as it is and
    the engine is left alone.  Either way the action is counted. *)
Theorem subscription_drives_engine (ch : string) (c : Client) (w : World) :
  (let added := hub_addSub ch c (hub (node w)) in
   let subscribed := engine_subscribe ch (engine (node w)) in
   ∃ w', addSubscription ch c w
         = Done (match added.1.2, added.1.1 with
                 | Some err, _ => Some err
                 | None, true => subscribed.1
                 | None, false => None
                 end) w'
     ∧ hub (node w') = added.2
     ∧ engine (node w') = match added.1.2, added.1.1 with
                          | None, true => subscribed.2
                          | _, _ => engine (node w)
                          end
     ∧ actionCount w' = Inc "add_subscription" (actionCount w))
  ∧ (let removed := hub_removeSub ch c (hub (node w)) in
     let unsubscribed := engine_unsubscribe ch (engine (node w)) in
     ∃ w', removeSubscription ch c w
           = Done (match removed.1.2, removed.1.1 with
                   | Some err, _ => Some err
                   | None, true => unsubscribed.1
                   | None, false => None
                   end) w'
       ∧ hub (node w') = removed.2
       ∧ engine (node w') = match removed.1.2, removed.1.1 with
                            | None, true => unsubscribed.2
                            | _, _ => engine (node w)
                            end
       ∧ actionCount w' = Inc "remove_subscription" (actionCount w)).
Proof.
  split.
  - intros added subscribed. unfold addSubscription.
    unfold mbind at 1. unfold M_bind at 1. unfold inc_actionCount, modify.
    unfold mbind at 1. unfold M_bind at 1. rewrite with_hub_run. simpl. fold added.
    destruct added as [[first [err|]] h]; simpl; [by eauto|].
    destruct first; [|by eauto]. rewrite with_engine_run. simpl. by eauto.
  - intros removed unsubscribed. unfold removeSubscription.
    unfold mbind at 1. unfold M_bind at 1. unfold inc_actionCount, modify.
    unfold mbind at 1. unfold M_bind at 1. rewrite with_hub_run. simpl. fold removed.
    destruct removed as [[empty [err|]] h]; simpl; [by eauto|].
    destruct empty; [|by eauto]. rewrite with_engine_run. simpl. by eauto.
Qed.

(** X28. [LastMessageID] asks the engine for a history of at most one
    publication: an engine error is returned with an empty id, even if
    the engine handed publications along with it; an empty history
    gives an empty id and no error; otherwise the id is the uid of the
    first publication returned. *)
Theorem LastMessageID_cases (ch : string) (w : World) :
  let asked := engine_history ch 1 (engine (node w)) in
  ∃ w', LastMessageID ch w
        = Done (match asked.1.2, asked.1.1 with
                | Some err, _ => ("", Some err)
                | None, [] => ("", None)
                | None, first :: _ => (proto.Publication_UID first, None)
                end) w'
    ∧ engine (node w') = asked.2
    ∧ hub (node w') = hub (node w)
    ∧ actionCount w' = Inc "last_message_id" (actionCount w).
Proof.
  intros asked. unfold LastMessageID.
  unfold mbind at 1. unfold M_bind at 1. unfold inc_actionCount, modify.
  unfold mbind at 1. unfold M_bind at 1. rewrite with_engine_run. simpl. fold asked.
  destruct asked as [[pubs [err|]] e']; simpl; [by eauto|].
  destruct pubs; by eauto.
Qed.

End NodeMore.

(** ** Runs of the further properties *)

Example pubNode_run_on_test_node :
  observe (λ r w', (r, nodeRegistry.get (nodes (node w')) "n1",
                    control_sent (engine (node w'))))
    (pubNode w0)
  = Some (None, controlproto.mkNode "n1" "node" "0.0.0" 3 3 3 1000,
          [controlproto.mkCommand "n1" controlproto.MethodTypeNode
             (String.list_byte_of_string "n1")]).
Proof. by vm_compute. Qed.

Example pubNode_broadcast_fails_run :
  observe (λ r w', (r, nodeRegistry.get (nodes (node w')) "n1"))
    (pubNode w_engine_broken)
  = Some (Some (ErrCollaborator "engine"),
          controlproto.mkNode "n1" "node" "0.0.0" 3 3 3 1000).
Proof. by vm_compute. Qed.

Example addSubscription_first_then_second :
  observe (λ r w', (r, hub_NumSubscribers "chat:new" (hub (node w'))))
    (addSubscription "chat:new" "u9" w0)
  = Some (None, 1).
Proof. by vm_compute. Qed.

Lemma clean_longer_delay_keeps_more_witness :
  60 * Second ≤ 120 * Second
  ∧ nodeRegistry.nodes (nodeRegistry.clean 2000 (60 * Second) two_nodes) !! "A"
    = Some peer_record
  ∧ nodeRegistry.nodes (nodeRegistry.clean 2000 (120 * Second) two_nodes) !! "A"
    = Some peer_record.
Proof.
  assert (Hle : 60 * Second ≤ 120 * Second) by (unfold Second; lia).
  assert (Hkept : nodeRegistry.nodes (nodeRegistry.clean 2000 (60 * Second) two_nodes)
                    !! "A" = Some peer_record) by (vm_compute; reflexivity).
  split; [exact Hle|]. split; [exact Hkept|].
  exact (clean_longer_delay_keeps_more 2000 (60 * Second) (120 * Second) two_nodes
           "A" peer_record Hle Hkept).
Defined.

Lemma add_then_clean_keeps_witness :
  0 ≤ 0
  ∧ timestamp_ok 2000
  ∧ nodeRegistry.nodes
      (nodeRegistry.clean 2000 0 (nodeRegistry.add 2000 peer_record two_nodes))
      !! controlproto.Node_UID peer_record = Some peer_record.
Proof.
  assert (Hnow : timestamp_ok 2000) by (unfold timestamp_ok; lia).
  split; [lia|]. split; [exact Hnow|].
  exact (add_then_clean_keeps 2000 0 peer_record two_nodes (Z.le_refl 0) Hnow).
Defined.

Example clientAllowed_same : clientAllowed test_config_value "room&C1" "C1" = Some true.
Proof. reflexivity. Qed.

Example clientAllowed_other : clientAllowed test_config_value "room&C1" "C2" = Some false.
Proof. reflexivity. Qed.

Lemma clientAllowed_after_last_boundary_witness :
  ChannelClientBoundary test_config_value ≠ ""
  ∧ no_overlap (ChannelClientBoundary test_config_value) "room&C1"
  ∧ after_last (ChannelClientBoundary test_config_value) "room&C1" "C1"
  ∧ clientAllowed test_config_value "room&C1" "C2" = Some (bool_decide ("C2" = "C1")).
Proof.
  assert (Hover : no_overlap (ChannelClientBoundary test_config_value) "room&C1")
    by apply no_overlap_single.
  assert (Hlast : after_last (ChannelClientBoundary test_config_value) "room&C1" "C1")
    by (apply (after_last_intro "&" "room" "C1"); [exact Hover | reflexivity]).
  split; [discriminate|]. split; [exact Hover|]. split; [exact Hlast|].
  apply (clientAllowed_after_last_boundary test_config_value "room&C1" "C2");
    [discriminate | exact Hover | exact Hlast].
Defined.

Lemma private_channel_shares_namespace_witness :
  privateChannel test_config_value "ns:foo" = false
  ∧ privateChannel test_config_value (ChannelPrivatePrefix test_config_value +:+ "ns:foo")
    = true
  ∧ namespaceName test_config_value (ChannelPrivatePrefix test_config_value +:+ "ns:foo")
    = namespaceName test_config_value "ns:foo".
Proof.
  split; [reflexivity|].
  apply (private_channel_shares_namespace test_config_value "ns:foo"). reflexivity.
Defined.

Lemma namespaceName_has_no_boundary_witness :
  ChannelNamespaceBoundary test_config_value ≠ ""
  ∧ namespaceName test_config_value "ns:foo:bar" = Some "ns"
  ∧ ∀ u v, "ns" ≠ u +:+ ChannelNamespaceBoundary test_config_value +:+ v.
Proof.
  split; [discriminate|]. split; [reflexivity|].
  apply (namespaceName_has_no_boundary test_config_value "ns:foo:bar" "ns");
    [discriminate | reflexivity].
Defined.

Lemma user_with_separator_never_allowed_witness :
  ChannelUserSeparator test_config_value ≠ ""
  ∧ Contains "room#alice,bob" (ChannelUserBoundary test_config_value) = true
  ∧ (∃ u v, "alice,bob" = u +:+ ChannelUserSeparator test_config_value +:+ v)
  ∧ userAllowed test_config_value "room#alice,bob" "alice,bob" ≠ Some true.
Proof.
  assert (Hin : ∃ u v, "alice,bob" = u +:+ ChannelUserSeparator test_config_value +:+ v)
    by (exists "alice", "bob"; reflexivity).
  split; [discriminate|]. split; [reflexivity|]. split; [exact Hin|].
  apply (user_with_separator_never_allowed test_config_value "room#alice,bob" "alice,bob");
    [discriminate | reflexivity | exact Hin].
Defined.

Lemma handleControl_rejects_witness :
  controlproto.Command_UID undecodable_node_command ≠ uid (node w0)
  ∧ DecodeNode (controlproto.Command_Params undecodable_node_command)
    = inr (ErrCollaborator "empty params")
  ∧ ∃ w' : TWorld,
      handleControl undecodable_node_command w0
      = Done (Some (ErrCollaborator "empty params")) w'
      ∧ node w' = node w0
      ∧ calls w' = calls w0
      ∧ logged_error w0 w'.
Proof.
  split; [discriminate|]. split; [reflexivity|].
  apply (handleControl_rejects undecodable_node_command w0
           (ErrCollaborator "empty params")); [discriminate | reflexivity].
Defined.

Lemma handleControl_node_from_peer_witness :
  controlproto.Command_UID peer_node_command ≠ uid (node w0)
  ∧ controlproto.Command_Method peer_node_command = controlproto.MethodTypeNode
  ∧ DecodeNode (controlproto.Command_Params peer_node_command) = inl peer_only_uid
  ∧ ∃ w' : TWorld,
      handleControl peer_node_command w0 = Done None w'
      ∧ nodes (node w') = nodeRegistry.add (clock w0) peer_only_uid (nodes (node w0))
      ∧ nodeRegistry.get (nodes (node w')) (controlproto.Node_UID peer_only_uid)
        = peer_only_uid
      ∧ hub (node w') = hub (node w0)
      ∧ engine (node w') = engine (node w0)
      ∧ calls w' = calls w0
      ∧ logged w' = logged w0.
Proof.
  split; [discriminate|]. split; [reflexivity|]. split; [reflexivity|].
  apply (handleControl_node_from_peer peer_node_command peer_only_uid w0);
    [discriminate | reflexivity | reflexivity].
Defined.

Lemma unresolved_namespace_sends_nothing_witness :
  ChannelOpts "zzz:lobby" w0 = Done None w0
  ∧ publish "zzz:lobby" hello None w0 = Done (hello, Some ErrNamespaceNotFound) w0
  ∧ publishJoin "zzz:lobby" (proto.mkJoin (test_client [])) None w0
    = Done (Some ErrNamespaceNotFound) w0
  ∧ publishLeave "zzz:lobby" (proto.mkLeave (test_client [])) None w0
    = Done (Some ErrNamespaceNotFound) w0.
Proof.
  assert (Hopts : ChannelOpts "zzz:lobby" w0 = Done None w0) by (vm_compute; reflexivity).
  split; [exact Hopts|].
  exact (unresolved_namespace_sends_nothing "zzz:lobby" hello
           (proto.mkJoin (test_client [])) (proto.mkLeave (test_client [])) w0 Hopts).
Defined.

Lemma Info_lists_self_after_pubNode_witness :
  pubNode w0 = Done None (world_after (pubNode w0) w0)
  ∧ ∃ info,
      Info (world_after (pubNode w0) w0) = Done (info, None) (world_after (pubNode w0) w0)
      ∧ length (NodeInfo_Nodes info)
        = size (nodeRegistry.nodes (nodes (node (world_after (pubNode w0) w0))))
      ∧ node_result (self_info w0) ∈ NodeInfo_Nodes info.
Proof.
  assert (Hrun : pubNode w0 = Done None (world_after (pubNode w0) w0))
    by (vm_compute; reflexivity).
  split; [exact Hrun|].
  exact (Info_lists_self_after_pubNode w0 (world_after (pubNode w0) w0) None Hrun).
Defined.

Lemma self_record_invariant_witness :
  nodeRegistry.currentUID (nodes (node w0)) = uid (node w0)
  ∧ pubNode w0 = Done None (world_after (pubNode w0) w0)
  ∧ self_known (world_after (pubNode w0) w0).
Proof.
  assert (Hrun : pubNode w0 = Done None (world_after (pubNode w0) w0))
    by (vm_compute; reflexivity).
  split; [reflexivity|]. split; [exact Hrun|].
  destruct (self_record_invariant w0 (world_after (pubNode w0) w0) eq_refl)
    as [Hafter _].
  exact (Hafter None Hrun).
Defined.

(** ** Commands that travel between nodes

    The runs below use the codec that carries every field. *)
Lemma get_nat_put (n : nat) (rest : bytes) : get_nat (put_nat n ++ rest) = Some (n, rest).
Proof.
  unfold put_nat. induction n as [|n IH]; [done|].
  simpl. simpl in IH. by rewrite IH.
Qed.

Lemma get_string_put (s : string) (rest : bytes) :
  get_string (put_string s ++ rest) = Some (s, rest).
Proof.
  unfold get_string, put_string. rewrite <- app_assoc, get_nat_put.
  rewrite decide_True by (rewrite length_app; lia).
  by rewrite take_app_length, drop_app_length, String.string_of_list_byte_of_string.
Qed.

Lemma get_Z_put (z : Z) (rest : bytes) : get_Z (put_Z z ++ rest) = Some (z, rest).
Proof.
  unfold get_Z, put_Z. simpl. rewrite get_nat_put.
  destruct (Z.ltb_spec z 0); simpl; do 2 f_equal; lia.
Qed.

Lemma get_Node_put (n : controlproto.Node) : get_Node (put_Node n) = Some n.
Proof.
  destruct n as [uid name version clients users channels uptime].
  unfold get_Node, put_Node.
  cbn [controlproto.Node_UID controlproto.Node_Name controlproto.Node_Version
       controlproto.Node_NumClients controlproto.Node_NumUsers
       controlproto.Node_NumChannels controlproto.Node_Uptime].
  do 3 (rewrite get_string_put; cbn [mbind option_bind]).
  do 3 (rewrite get_Z_put; cbn [mbind option_bind]).
  rewrite <- (app_nil_r (put_Z uptime)), get_Z_put. done.
Qed.

Lemma get_Unsubscribe_put (u : controlproto.Unsubscribe) :
  get_Unsubscribe (put_Unsubscribe u) = Some u.
Proof.
  destruct u as [user channel]. unfold get_Unsubscribe, put_Unsubscribe.
  cbn [controlproto.Unsubscribe_User controlproto.Unsubscribe_Channel].
  rewrite get_string_put. cbn [mbind option_bind].
  rewrite <- (app_nil_r (put_string channel)), get_string_put. done.
Qed.

Section ExactCodecRuns.

#[local] Existing Instance exact_control_codec.

Lemma exact_codec_Node (n : controlproto.Node) : DecodeNode (EncodeNode n).1 = inl n.
Proof. simpl. by rewrite get_Node_put. Qed.

Lemma exact_codec_Unsubscribe (u : controlproto.Unsubscribe) :
  DecodeUnsubscribe (EncodeUnsubscribe u).1 = inl u.
Proof. simpl. by rewrite get_Unsubscribe_put. Qed.

(** Node n1 unsubscribes u1 from chat:lobby; node n2, which has the
    same subscriptions, receives the command and drops the same one. *)
Example cluster_unsubscribe_run :
  observe (λ _ sender',
      (subscriptions (hub (node sender')),
       observe (λ r peer', (r, subscriptions (hub (node peer')), calls peer'))
         (handleControl (unsubscribe_command w0 "u1" "chat:lobby") w_peer)))
    (Unsubscribe "u1" "chat:lobby" w0)
  = Some ([("u2", "chat:lobby"); ("u1", "news")],
          Some (None, [("u2", "chat:lobby"); ("u1", "news")],
                [CallHubUnsubscribe "u1" "chat:lobby"])).
Proof. by vm_compute. Qed.

Lemma cluster_unsubscribe_end_to_end_witness :
  DecodeUnsubscribe (EncodeUnsubscribe (controlproto.mkUnsubscribe "u1" "chat:lobby")).1
  = inl (controlproto.mkUnsubscribe "u1" "chat:lobby")
  ∧ uid (node w0) ≠ uid (node w_peer)
  ∧ Unsubscribe "u1" "chat:lobby" w0
    = Done None (world_after (Unsubscribe "u1" "chat:lobby" w0) w0)
  ∧ last (calls (world_after (Unsubscribe "u1" "chat:lobby" w0) w0))
    = Some (CallEnginePublishControl (unsubscribe_command w0 "u1" "chat:lobby"))
  ∧ (∃ peer' : TWorld,
       handleControl (unsubscribe_command w0 "u1" "chat:lobby") w_peer
       = Done (hub_unsubscribe "u1" "chat:lobby" (hub (node w_peer))).1 peer'
       ∧ hub (node peer') = (hub_unsubscribe "u1" "chat:lobby" (hub (node w_peer))).2
       ∧ calls peer' = calls w_peer ++ [CallHubUnsubscribe "u1" "chat:lobby"])
  ∧ handleControl (unsubscribe_command w0 "u1" "chat:lobby")
      (world_after (Unsubscribe "u1" "chat:lobby" w0) w0)
    = Done None (received "control" (world_after (Unsubscribe "u1" "chat:lobby" w0) w0)).
Proof.
  assert (Hcodec :
    DecodeUnsubscribe (EncodeUnsubscribe (controlproto.mkUnsubscribe "u1" "chat:lobby")).1
    = inl (controlproto.mkUnsubscribe "u1" "chat:lobby")) by (vm_compute; reflexivity).
  assert (Hrun : Unsubscribe "u1" "chat:lobby" w0
                 = Done None (world_after (Unsubscribe "u1" "chat:lobby" w0) w0))
    by (vm_compute; reflexivity).
  split; [exact Hcodec|]. split; [discriminate|]. split; [exact Hrun|].
  exact (cluster_unsubscribe_end_to_end "u1" "chat:lobby" w0
           (world_after (Unsubscribe "u1" "chat:lobby" w0) w0) w_peer
           Hcodec ltac:(discriminate) Hrun).
Defined.

(** Node n1 announces itself; node n2 receives the command and files
    the record as n1 built it: name, version, counters and uptime. *)
Example peer_discovery_run :
  observe (λ r peer', (r, nodeRegistry.get (nodes (node peer')) "n1",
                       nodeRegistry.updates (nodes (node peer')) !! "n1"))
    (handleControl (node_command w0) w_peer)
  = Some (None, controlproto.mkNode "n1" "node" "0.0.0" 3 3 3 1000, Some 2000).
Proof. by vm_compute. Qed.

Lemma peer_discovery_end_to_end_witness :
  DecodeNode (EncodeNode (self_info w0)).1 = inl (self_info w0)
  ∧ uid (node w0) ≠ uid (node w_peer)
  ∧ pubNode w0 = Done None (world_after (pubNode w0) w0)
  ∧ (∃ peer' : TWorld,
       handleControl (node_command w0) w_peer = Done None peer'
       ∧ nodeRegistry.get (nodes (node peer')) (uid (node w0)) = self_info w0
       ∧ nodeRegistry.updates (nodes (node peer')) !! uid (node w0) = Some (clock w_peer)
       ∧ hub (node peer') = hub (node w_peer))
  ∧ handleControl (node_command w0) (world_after (pubNode w0) w0)
    = Done None (received "control" (world_after (pubNode w0) w0)).
Proof.
  assert (Hcodec : DecodeNode (EncodeNode (self_info w0)).1 = inl (self_info w0))
    by (vm_compute; reflexivity).
  assert (Hrun : pubNode w0 = Done None (world_after (pubNode w0) w0))
    by (vm_compute; reflexivity).
  split; [exact Hcodec|]. split; [discriminate|]. split; [exact Hrun|].
  exact (peer_discovery_end_to_end w0 (world_after (pubNode w0) w0) w_peer None
           Hcodec ltac:(discriminate) Hrun).
Defined.

End ExactCodecRuns.
